(** * simple_neural_net: a two-layer classifier written with numpy

    Shallow embedding of [src/simple_net.py] and [src/optimizers.py].

    - numpy's float64 scalars are an abstract carrier [T] with the
      operations the program uses (class [Float]).  Two instances are
      given: the real numbers (exact arithmetic, no rounding) and the
      reals extended with the IEEE special values inf, -inf and nan.
    - a 2-D [ndarray] is its shape together with its rows.
    - numpy raises [ValueError] on incompatible shapes: the array
      operations return [option], [None] standing for the exception.
    - [x -= y] on an array writes into the object [x] refers to: the
      functions that do it run over a store of array objects. *)

From Stdlib Require Import Reals Lra Lia List ZArith.
From stdpp Require Import base option list gmap.
Import ListNotations.

(** ** Scalars *)

Class Float (T : Type) := {
  of_int : Z -> T;          (* a Python int used in float arithmetic *)
  fadd : T -> T -> T;
  fsub : T -> T -> T;
  fmul : T -> T -> T;
  fdiv : T -> T -> T;
  fneg : T -> T;
  fexp : T -> T;            (* np.exp *)
  flog : T -> T;            (* np.log *)
  fsqrt : T -> T;           (* np.sqrt *)
  fltb : T -> T -> bool     (* x < y *)
}.

Declare Scope float_scope.
Delimit Scope float_scope with fl.
Notation "x + y" := (fadd x y) : float_scope.
Notation "x - y" := (fsub x y) : float_scope.
Notation "x * y" := (fmul x y) : float_scope.
Notation "x / y" := (fdiv x y) : float_scope.
Notation "- x" := (fneg x) : float_scope.

(** ** numpy arrays *)

Section Numpy.
Context {T : Type} `{Float T}.

(** A 2-D array: [shape = (shape0, shape1)], rows in [data]. *)
Record ndarray := NDArray {
  shape0 : nat;
  shape1 : nat;
  data : list (list T)
}.

Definition shape (a : ndarray) : nat * nat := (shape0 a, shape1 a).

(** [a[i][j]] *)
Definition item (a : ndarray) (i j : nat) : T :=
  nth j (nth i (data a) []) (of_int 0).

Definition tabulate (n m : nat) (f : nat -> nat -> T) : list (list T) :=
  map (fun i => map (fun j => f i j) (seq 0 m)) (seq 0 n).

Definition mk_array (n m : nat) (f : nat -> nat -> T) : ndarray :=
  NDArray n m (tabulate n m f).

(** The rows agree with the shape. *)
Definition wf (a : ndarray) : Prop :=
  length (data a) = shape0 a /\
  Forall (fun row => length row = shape1 a) (data a).

(** A 1-D array, as [np.sum(..., axis=1)] returns. *)
Definition ndarray1 := list T.

(** [np.sum] of a sequence of scalars. *)
Definition fsum (l : list T) : T := fold_left fadd l (of_int 0).

(** [sum_{k < n} f k] *)
Definition sigma (n : nat) (f : nat -> T) : T := fsum (map f (seq 0 n)).

(** *** Broadcasting *)

(** Extent of a broadcast dimension; [None] when the extents differ and
    neither is 1. *)
Definition bdim (n m : nat) : option nat :=
  if Nat.eqb n m then Some n
  else if Nat.eqb n 1 then Some m
  else if Nat.eqb m 1 then Some n
  else None.

(** Index read in a dimension of extent [n] when iterating at [i]. *)
Definition bidx (n i : nat) : nat := if Nat.eqb n 1 then 0 else i.

Definition bitem (a : ndarray) (i j : nat) : T :=
  item a (bidx (shape0 a) i) (bidx (shape1 a) j).

(** A binary ufunc on two arrays. *)
Definition ufunc2 (f : T -> T -> T) (a b : ndarray) : option ndarray :=
  n ← bdim (shape0 a) (shape0 b);
  m ← bdim (shape1 a) (shape1 b);
  Some (mk_array n m (fun i j => f (bitem a i j) (bitem b i j))).

(** A unary ufunc, or a binary one with a scalar operand. *)
Definition ufunc1 (f : T -> T) (a : ndarray) : ndarray :=
  mk_array (shape0 a) (shape1 a) (fun i j => f (item a i j)).

Definition np_add := ufunc2 fadd.
Definition np_subtract := ufunc2 fsub.
Definition np_multiply := ufunc2 fmul.
Definition np_divide := ufunc2 fdiv.

Definition np_exp := ufunc1 fexp.
Definition np_log := ufunc1 flog.
Definition np_sqrt := ufunc1 fsqrt.
Definition np_square := ufunc1 (fun x => x * x)%fl.
Definition np_negative := ufunc1 fneg.

(** [a.T] *)
Definition np_transpose (a : ndarray) : ndarray :=
  mk_array (shape1 a) (shape0 a) (fun i j => item a j i).

(** [np.dot(a, b)] on 2-D arrays. *)
Definition np_dot (a b : ndarray) : option ndarray :=
  if Nat.eqb (shape1 a) (shape0 b)
  then Some (mk_array (shape0 a) (shape1 b)
               (fun i j => sigma (shape1 a)
                             (fun k => item a i k * item b k j)%fl))
  else None.

(** [np.sum(a, axis=0, keepdims=True)] *)
Definition np_sum_axis0_keepdims (a : ndarray) : ndarray :=
  mk_array 1 (shape1 a) (fun _ j => sigma (shape0 a) (fun i => item a i j)).

(** [np.sum(a, axis=1, keepdims=True)] *)
Definition np_sum_axis1_keepdims (a : ndarray) : ndarray :=
  mk_array (shape0 a) 1 (fun i _ => sigma (shape1 a) (fun j => item a i j)).

(** [np.sum(a, axis=1)] *)
Definition np_sum_axis1 (a : ndarray) : ndarray1 :=
  map (fun i => sigma (shape1 a) (fun j => item a i j)) (seq 0 (shape0 a)).

(** [np.mean] of a 1-D array. *)
Definition np_mean (v : ndarray1) : T :=
  (fsum v / of_int (Z.of_nat (length v)))%fl.

(** [x -= y]: the result is written into [x], so the broadcast shape
    has to be the shape of [x]. *)
Definition np_isub (x y : ndarray) : option ndarray :=
  r ← np_subtract x y;
  if decide (shape r = shape x) then Some r else None.

(** [np.argmax(a)] without an axis: position of the first maximum of
    the flattened array. *)
Fixpoint argmax_from (best : T) (ibest i : nat) (l : list T) : nat :=
  match l with
  | [] => ibest
  | x :: l' =>
      if fltb best x then argmax_from x i (S i) l'
      else argmax_from best ibest (S i) l'
  end.

Definition argmax_list (l : list T) : nat :=
  match l with
  | [] => 0
  | x :: l' => argmax_from x 0 1 l'
  end.

Definition np_argmax (a : ndarray) : nat := argmax_list (concat (data a)).

(** ** simple_net.py *)

Definition sigmoid (vector : ndarray) : ndarray :=
  ufunc1 (fun x => of_int 1 / x)%fl
    (ufunc1 (fun x => of_int 1 + x)%fl (np_exp (np_negative vector))).

Definition softmax (vector : ndarray) : option ndarray :=
  np_divide (np_exp vector) (np_sum_axis1_keepdims (np_exp vector)).

Definition forward_pass (input input_hidden_weight bias_input
                         hidden_output_weight bias_hidden : ndarray)
  : option (ndarray * ndarray) :=
  d1 ← np_dot input input_hidden_weight;
  hidden_layer ← np_add d1 bias_input;
  let hidden_activations := sigmoid hidden_layer in
  d2 ← np_dot hidden_activations hidden_output_weight;
  o ← np_add d2 bias_hidden;
  out ← softmax o;
  Some (out, hidden_activations).

Definition log_loss (true_output net_output : ndarray) : option T :=
  p ← np_multiply true_output (np_log net_output);
  let q := ufunc1 (fun x => x / of_int (Z.of_nat (shape1 net_output)))%fl p in
  let sum := map fneg (np_sum_axis1 q) in
  Some (np_mean sum).

(** *** Array objects

    The arrays a caller passes in are objects: [weight_matrix -= ...]
    changes the object, and every name bound to it sees the change.
    Arrays built inside a function are fresh, so they stay values. *)

Abbreviation loc := positive.
Abbreviation store := (gmap loc ndarray).

(** Computations that read and write the store and may raise. *)
Definition Py (A : Type) : Type := store -> option (A * store).

Definition py_ret {A} (x : A) : Py A := fun s => Some (x, s).
Definition py_bind {A B} (m : Py A) (k : A -> Py B) : Py B :=
  fun s => match m s with
           | Some (x, s') => k x s'
           | None => None
           end.
Definition py_lift {A} (o : option A) : Py A :=
  fun s => match o with Some x => Some (x, s) | None => None end.
Definition py_load (l : loc) : Py ndarray :=
  fun s => match s !! l with Some a => Some (a, s) | None => None end.
Definition py_store (l : loc) (a : ndarray) : Py unit :=
  fun s => Some (tt, <[l := a]> s).

Notation "x <- m ;; k" := (py_bind m (fun x => k))
  (at level 20, m at level 99, k at level 200, only parsing).
Notation "m >> k" := (py_bind m (fun _ => k))
  (at level 20, k at level 200, only parsing).

(** [update_weights] of simple_net.py: [weight_matrix -= ...] writes
    into the argument and the same object is returned. *)
Definition update_weights (weight_matrix : loc) (gradient : ndarray)
                          (learning_rate : T) : Py loc :=
  w <- py_load weight_matrix ;;
  w' <- py_lift (np_isub w (ufunc1 (fun g => learning_rate * g)%fl gradient)) ;;
  py_store weight_matrix w' >>
  py_ret weight_matrix.

Section Backprop.
(** [LEARNING_RATE] comes from the module [constants], which is not
    part of the sources at hand. *)
Variable LEARNING_RATE : T.

Definition backprop (y y_ hidden_output_activations hidden_weights
                     input_weights bias_hidden bias_input input_x : loc)
  : Py (loc * loc * loc * loc) :=
  vy_ <- py_load y_ ;;
  vy <- py_load y ;;
  d <- py_lift (np_subtract vy_ vy) ;;
  let dLdy_ := ufunc1 (fun v => v / of_int (Z.of_nat (shape1 vy)))%fl d in
  vh <- py_load hidden_output_activations ;;
  dLdhiddenActiv <- py_lift (np_dot (np_transpose dLdy_) vh) ;;
  t1 <- py_lift (np_multiply vh (ufunc1 (fun v => of_int 1 - v)%fl vh)) ;;
  vW2 <- py_load hidden_weights ;;
  t2 <- py_lift (np_dot dLdy_ (np_transpose vW2)) ;;
  delta_h <- py_lift (np_multiply t1 t2) ;;
  vx <- py_load input_x ;;
  dLdWinput <- py_lift (np_dot (np_transpose vx) delta_h) ;;
  hidden_weights' <- update_weights hidden_weights
                       (np_transpose dLdhiddenActiv) LEARNING_RATE ;;
  bias_hidden' <- update_weights bias_hidden
                    (np_sum_axis0_keepdims dLdy_) LEARNING_RATE ;;
  input_weights' <- update_weights input_weights dLdWinput LEARNING_RATE ;;
  bias_input' <- update_weights bias_input
                   (np_sum_axis0_keepdims delta_h) LEARNING_RATE ;;
  py_ret (hidden_weights', bias_hidden', input_weights', bias_input').
End Backprop.

(** *** The evaluation loop of [main]

    [eval_batcher.next_batch()] is a list of (image, label) pairs; the
    four parameter arrays are only read. *)

Definition count_correct (correct_predictions : Z)
                         (output_layer label : ndarray) : Z :=
  if Nat.eqb (np_argmax output_layer) (np_argmax label)
  then (correct_predictions + 1)%Z
  else correct_predictions.

Fixpoint eval_loop (input_hidden_weights bias_input_hidden
                    hidden_output_weights bias_output_hidden : ndarray)
                   (batches : list (ndarray * ndarray))
                   (correct_predictions : Z) : option Z :=
  match batches with
  | [] => Some correct_predictions
  | (image_eval, label_eval) :: rest =>
      r ← forward_pass image_eval input_hidden_weights bias_input_hidden
            hidden_output_weights bias_output_hidden;
      eval_loop input_hidden_weights bias_input_hidden
        hidden_output_weights bias_output_hidden rest
        (count_correct correct_predictions (fst r) label_eval)
  end.

(** [correct_predictions / NO_EXAMPLES_TEST], which raises
    [ZeroDivisionError] for a zero divisor. *)
Definition accuracy (input_hidden_weights bias_input_hidden
                     hidden_output_weights bias_output_hidden : ndarray)
                    (batches : list (ndarray * ndarray))
                    (NO_EXAMPLES_TEST : Z) : option T :=
  correct_predictions ← eval_loop input_hidden_weights bias_input_hidden
                          hidden_output_weights bias_output_hidden batches 0%Z;
  if Z.eqb NO_EXAMPLES_TEST 0 then None
  else Some (of_int correct_predictions / of_int NO_EXAMPLES_TEST)%fl.

(** ** optimizers.py *)

(** An attribute that holds a Python number or an array: [self.r]
    starts as the int [0] and is an array after the first update. *)
Inductive pyval :=
| PyNum (x : T)
| PyArr (a : ndarray).

(** [c * v] for a float [c]. *)
Definition py_scale (c : T) (v : pyval) : pyval :=
  match v with
  | PyNum x => PyNum (c * x)%fl
  | PyArr a => PyArr (ufunc1 (fun x => c * x)%fl a)
  end.

(** [a + v] for an array [a]. *)
Definition py_add_arr (a : ndarray) (v : pyval) : option ndarray :=
  match v with
  | PyNum x => Some (ufunc1 (fun e => e + x)%fl a)
  | PyArr b => np_add a b
  end.

Class Optimizer (O : Type) := {
  opt_update_weights : O -> loc -> ndarray -> Py (O * loc)
}.

Record GradientDescent := { learning_rate : T }.

Definition GradientDescent_default : GradientDescent :=
  {| learning_rate := (of_int 1 / of_int 1000)%fl |}.

Definition GradientDescent_update_weights (self : GradientDescent)
    (weight_matrix : loc) (gradient : ndarray) : Py (GradientDescent * loc) :=
  w <- py_load weight_matrix ;;
  w' <- py_lift (np_isub w (ufunc1 (fun g => learning_rate self * g)%fl
                              gradient)) ;;
  py_store weight_matrix w' >>
  py_ret (self, weight_matrix).

Record RMSProp := {
  r : pyval;
  gamma : T;
  velocity : pyval;
  alpha : T;
  eps : T
}.

Definition RMSProp_init (gamma alpha eps : T) : RMSProp :=
  {| r := PyNum (of_int 0); gamma := gamma;
     velocity := PyNum (of_int 0); alpha := alpha; eps := eps |}.

Definition RMSProp_default : RMSProp :=
  RMSProp_init (of_int 9 / of_int 10)%fl (of_int 1 / of_int 1000)%fl
               (of_int 1 / of_int 100000000)%fl.

Definition RMSProp_update_weights (self : RMSProp)
    (weight_matrix : loc) (gradient : ndarray) : Py (RMSProp * loc) :=
  r' <- py_lift (py_add_arr
                   (ufunc1 (fun x => gamma self * x)%fl (np_square gradient))
                   (py_scale (of_int 1 - gamma self)%fl (r self))) ;;
  let denom := ufunc1 (fun x => x + eps self)%fl (np_sqrt r') in
  velocity' <- py_lift (np_multiply
                          (ufunc1 (fun x => alpha self / x)%fl denom)
                          gradient) ;;
  w <- py_load weight_matrix ;;
  w' <- py_lift (np_isub w velocity') ;;
  py_store weight_matrix w' >>
  py_ret ({| r := PyArr r'; gamma := gamma self;
             velocity := PyArr velocity'; alpha := alpha self;
             eps := eps self |}, weight_matrix).

#[export] Instance GradientDescent_Optimizer : Optimizer GradientDescent :=
  {| opt_update_weights := GradientDescent_update_weights |}.

#[export] Instance RMSProp_Optimizer : Optimizer RMSProp :=
  {| opt_update_weights := RMSProp_update_weights |}.

End Numpy.

Arguments ndarray T : clear implicits.
Arguments ndarray1 T : clear implicits.
Arguments pyval T : clear implicits.
Arguments GradientDescent T : clear implicits.
Arguments RMSProp T : clear implicits.
Abbreviation loc := positive.
Abbreviation store T := (gmap loc (ndarray T)).
Arguments Py T : clear implicits.
Arguments sigma : simpl never.
Arguments fsum : simpl never.

(** ** simple_net.py: [main]

    The data loader and the batcher are not part of the sources at
    hand: [batcher_train] and [eval_batcher] give, for each epoch, the
    batches [next_batch()] yields, and the randomly drawn initial
    weights are arguments. *)

Section Main.
Context {T : Type} `{Float T}.

Notation "x <- m ;; k" := (py_bind m (fun x => k))
  (at level 20, m at level 99, k at level 200, only parsing).

(** A new array object. *)
Definition py_alloc (a : ndarray T) : Py T loc :=
  fun s => let l := fresh (dom s) in Some (l, <[l := a]> s).

Definition py_raise {A} : Py T A := fun _ => None.

(** What [main] prints. *)
Inductive output :=
| StartingEpoch (epoch : Z)
| BatchLoss (step : Z) (loss : T)
| TestAccuracy (accuracy : T).

(** The variables the loops of [main] assign. *)
Record variables := {
  input_hidden_weights : loc;
  bias_input_hidden : loc;
  hidden_output_weights : loc;
  bias_output_hidden : loc;
  correct_predictions : Z;
  step : Z;
  stdout : list output
}.

Section Constants.
Variables (LEARNING_RATE : T) (BATCH_SIZE NO_EXAMPLES_TEST : Z).

(** The body of the training loop.  The batch and the two arrays the
    forward pass returns are array objects, handed to [backprop]. *)
Definition train_step (v : variables) (batch : ndarray T * ndarray T)
  : Py T variables :=
  let image := fst batch in
  let label := snd batch in
  W1 <- py_load (input_hidden_weights v) ;;
  b1 <- py_load (bias_input_hidden v) ;;
  W2 <- py_load (hidden_output_weights v) ;;
  b2 <- py_load (bias_output_hidden v) ;;
  fwd <- py_lift (forward_pass image W1 b1 W2 b2) ;;
  let output_layer := fst fwd in
  let hidden_activations := snd fwd in
  loss <- py_lift (log_loss label output_layer) ;;
  l_label <- py_alloc label ;;
  l_output <- py_alloc output_layer ;;
  l_hidden <- py_alloc hidden_activations ;;
  l_image <- py_alloc image ;;
  new <- backprop LEARNING_RATE l_label l_output l_hidden
           (hidden_output_weights v) (input_hidden_weights v)
           (bias_output_hidden v) (bias_input_hidden v) l_image ;;
  py_ret {|
    hidden_output_weights := fst (fst (fst new));
    bias_output_hidden := snd (fst (fst new));
    input_hidden_weights := snd (fst new);
    bias_input_hidden := snd new;
    correct_predictions :=
      count_correct (correct_predictions v) output_layer label;
    stdout := if Z.eqb (step v mod 10000) 0
              then stdout v ++ [BatchLoss (step v) loss]
              else stdout v;
    step := step v + BATCH_SIZE
  |}.

Fixpoint train_loop (v : variables) (batches : list (ndarray T * ndarray T))
  : Py T variables :=
  match batches with
  | [] => py_ret v
  | batch :: rest => v' <- train_step v batch ;; train_loop v' rest
  end.

(** Evaluation on the test set and the accuracy line. *)
Definition evaluate (v : variables) (batches : list (ndarray T * ndarray T))
  : Py T variables :=
  W1 <- py_load (input_hidden_weights v) ;;
  b1 <- py_load (bias_input_hidden v) ;;
  W2 <- py_load (hidden_output_weights v) ;;
  b2 <- py_load (bias_output_hidden v) ;;
  correct <- py_lift (eval_loop W1 b1 W2 b2 batches 0) ;;
  if Z.eqb NO_EXAMPLES_TEST 0 then py_raise
  else py_ret {|
    hidden_output_weights := hidden_output_weights v;
    bias_output_hidden := bias_output_hidden v;
    input_hidden_weights := input_hidden_weights v;
    bias_input_hidden := bias_input_hidden v;
    correct_predictions := correct;
    stdout := stdout v
              ++ [TestAccuracy (of_int correct / of_int NO_EXAMPLES_TEST)%fl];
    step := step v
  |}.

Variables (batcher_train eval_batcher : Z -> list (ndarray T * ndarray T)).

(** [for epoch in range(EPOCHS)], from [epoch] on for [n] more rounds. *)
Fixpoint epochs (n : nat) (epoch : Z) (v : variables) : Py T variables :=
  match n with
  | O => py_ret v
  | S n' =>
      let v0 := {|
        hidden_output_weights := hidden_output_weights v;
        bias_output_hidden := bias_output_hidden v;
        input_hidden_weights := input_hidden_weights v;
        bias_input_hidden := bias_input_hidden v;
        correct_predictions := correct_predictions v;
        stdout := stdout v ++ [StartingEpoch epoch];
        step := step v |} in
      v1 <- train_loop v0 (batcher_train epoch) ;;
      v2 <- evaluate v1 (eval_batcher epoch) ;;
      epochs n' (epoch + 1) v2
  end.

End Constants.

(** The three assertions at the start of [main]. *)
Definition main_asserts (BATCH_SIZE NO_EXAMPLES_TEST NO_EXAMPLES_TRAIN : Z)
  : bool :=
  Z.eqb (BATCH_SIZE mod 2) 0 &&
  (Z.leb 0 NO_EXAMPLES_TEST && Z.leb NO_EXAMPLES_TEST 10000) &&
  (Z.leb 0 NO_EXAMPLES_TRAIN && Z.leb NO_EXAMPLES_TRAIN 60000).

(** [main]: the printed lines, or [None] for an exception. *)
Definition main (BATCH_SIZE NO_EXAMPLES_TEST NO_EXAMPLES_TRAIN EPOCHS : Z)
    (LEARNING_RATE : T)
    (batcher_train eval_batcher : Z -> list (ndarray T * ndarray T))
    (input_hidden_weights0 bias_input_hidden0
     hidden_output_weights0 bias_output_hidden0 : ndarray T)
  : option (list output) :=
  if main_asserts BATCH_SIZE NO_EXAMPLES_TEST NO_EXAMPLES_TRAIN
  then
    fst <$>
    (lW1 <- py_alloc input_hidden_weights0 ;;
     lb1 <- py_alloc bias_input_hidden0 ;;
     lW2 <- py_alloc hidden_output_weights0 ;;
     lb2 <- py_alloc bias_output_hidden0 ;;
     v <- epochs LEARNING_RATE BATCH_SIZE NO_EXAMPLES_TEST
            batcher_train eval_batcher (Z.to_nat EPOCHS) 0
            {| hidden_output_weights := lW2; bias_output_hidden := lb2;
               input_hidden_weights := lW1; bias_input_hidden := lb1;
               correct_predictions := 0; step := 0; stdout := [] |} ;;
     py_ret (stdout v)) ∅
  else None.

End Main.

Arguments output T : clear implicits.
Arguments variables T : clear implicits.



(** ** Exact arithmetic: the real numbers

    [ln], [sqrt] and [/] are the total functions of the standard
    library; they agree with numpy where numpy's result is finite. *)

#[export] Instance Float_R : Float R := {|
  of_int := IZR;
  fadd := Rplus;
  fsub := Rminus;
  fmul := Rmult;
  fdiv := Rdiv;
  fneg := Ropp;
  fexp := exp;
  flog := ln;
  fsqrt := sqrt;
  fltb := fun x y => if Rlt_dec x y then true else false
|}.

(** ** IEEE special values over exact arithmetic

    Finite results are exact reals (no rounding, no overflow, one zero);
    inf, -inf and nan behave as in IEEE 754. *)

Inductive xreal :=
| Fin (x : R)
| PInf
| NInf
| NaN.

Definition xinf (positive : bool) : xreal := if positive then PInf else NInf.

(** Sign of a value that is not nan: [Some true] above zero, [Some false]
    below, [None] at zero. *)
Definition xsign (x : xreal) : option bool :=
  match x with
  | Fin a => if Rlt_dec 0 a then Some true
             else if Rlt_dec a 0 then Some false else None
  | PInf => Some true
  | NInf => Some false
  | NaN => None
  end.

Definition finite (x : xreal) : bool :=
  match x with Fin _ => true | _ => false end.

Definition xadd (x y : xreal) : xreal :=
  match x, y with
  | NaN, _ | _, NaN => NaN
  | Fin a, Fin b => Fin (a + b)
  | PInf, NInf | NInf, PInf => NaN
  | PInf, _ | _, PInf => PInf
  | NInf, _ | _, NInf => NInf
  end.

Definition xneg (x : xreal) : xreal :=
  match x with
  | Fin a => Fin (- a)
  | PInf => NInf
  | NInf => PInf
  | NaN => NaN
  end.

Definition xsub (x y : xreal) : xreal := xadd x (xneg y).

Definition xmul (x y : xreal) : xreal :=
  match x, y with
  | NaN, _ | _, NaN => NaN
  | Fin a, Fin b => Fin (a * b)
  | _, _ =>
      match xsign x, xsign y with
      | Some s, Some t => xinf (Bool.eqb s t)
      | _, _ => NaN                      (* 0 * inf *)
      end
  end.

Definition xdiv (x y : xreal) : xreal :=
  match x, y with
  | NaN, _ | _, NaN => NaN
  | Fin a, Fin b =>
      if Req_dec_T b 0
      then match xsign x with
           | Some s => xinf s            (* a / 0 *)
           | None => NaN                 (* 0 / 0 *)
           end
      else Fin (a / b)
  | Fin _, _ => Fin 0
  | _, Fin b => xinf (Bool.eqb (if Rlt_dec b 0 then false else true)
                               (if xsign x is Some false then false else true))
  | _, _ => NaN                          (* inf / inf *)
  end.

Definition xexp (x : xreal) : xreal :=
  match x with
  | Fin a => Fin (exp a)
  | PInf => PInf
  | NInf => Fin 0
  | NaN => NaN
  end.

Definition xlog (x : xreal) : xreal :=
  match x with
  | Fin a => if Rlt_dec 0 a then Fin (ln a)
             else if Rlt_dec a 0 then NaN else NInf
  | PInf => PInf
  | _ => NaN
  end.

Definition xsqrt (x : xreal) : xreal :=
  match x with
  | Fin a => if Rlt_dec a 0 then NaN else Fin (sqrt a)
  | PInf => PInf
  | _ => NaN
  end.

Definition xltb (x y : xreal) : bool :=
  match x, y with
  | NaN, _ | _, NaN => false
  | Fin a, Fin b => if Rlt_dec a b then true else false
  | NInf, NInf | PInf, _ | _, NInf => false
  | _, _ => true
  end.

#[export] Instance Float_xreal : Float xreal := {|
  of_int := fun z => Fin (IZR z);
  fadd := xadd;
  fsub := xsub;
  fmul := xmul;
  fdiv := xdiv;
  fneg := xneg;
  fexp := xexp;
  flog := xlog;
  fsqrt := xsqrt;
  fltb := xltb
|}.

(** ** The formulas of the specification, over the reals *)

Local Open Scope R_scope.

(** [sum_{k < n} f k] *)
Fixpoint Rsum (n : nat) (f : nat -> R) : R :=
  match n with
  | O => 0
  | S k => Rsum k f + f k
  end.

(** *** Forward engine (spec 4.1) *)

Definition spec_sigmoid (x : R) : R := 1 / (1 + exp (- x)).

Definition spec_softmax (C : nat) (row : nat -> R) (i : nat) : R :=
  exp (row i) / Rsum C (fun j => exp (row j)).

Definition spec_hidden_pre (input W1 b1 : ndarray R) (i j : nat) : R :=
  Rsum (shape1 input) (fun k => item input i k * item W1 k j) + item b1 0 j.

Definition spec_hidden (input W1 b1 : ndarray R) (i j : nat) : R :=
  spec_sigmoid (spec_hidden_pre input W1 b1 i j).

Definition spec_output_pre (input W1 b1 W2 b2 : ndarray R) (i j : nat) : R :=
  Rsum (shape0 W2) (fun k => spec_hidden input W1 b1 i k * item W2 k j)
  + item b2 0 j.

Definition spec_predictions (input W1 b1 W2 b2 : ndarray R) (i j : nat) : R :=
  spec_softmax (shape1 W2) (spec_output_pre input W1 b1 W2 b2 i) j.

(** *** Loss function (spec 4.2) *)

Definition spec_row_loss (true_labels predictions : ndarray R) (i : nat) : R :=
  - Rsum (shape1 predictions)
      (fun j => item true_labels i j * ln (item predictions i j)
                / INR (shape1 predictions)).

Definition spec_loss (true_labels predictions : ndarray R) : R :=
  Rsum (shape0 predictions) (spec_row_loss true_labels predictions)
  / INR (shape0 predictions).

(** *** Backpropagation engine (spec 4.3) *)

Definition spec_d_output (y y_ : ndarray R) (i j : nat) : R :=
  (item y_ i j - item y i j) / INR (shape1 y).

Definition spec_grad_W2 (y y_ h : ndarray R) (i j : nat) : R :=
  Rsum (shape0 y) (fun n => spec_d_output y y_ n j * item h n i).

Definition spec_delta_hidden (y y_ h W2 : ndarray R) (i k : nat) : R :=
  item h i k * (1 - item h i k)
  * Rsum (shape1 y) (fun c => spec_d_output y y_ i c * item W2 k c).

Definition spec_grad_W1 (y y_ h W2 x : ndarray R) (a k : nat) : R :=
  Rsum (shape0 y) (fun n => item x n a * spec_delta_hidden y y_ h W2 n k).

Definition spec_grad_b2 (y y_ : ndarray R) (_ j : nat) : R :=
  Rsum (shape0 y) (fun n => spec_d_output y y_ n j).

Definition spec_grad_b1 (y y_ h W2 : ndarray R) (_ k : nat) : R :=
  Rsum (shape0 y) (fun n => spec_delta_hidden y y_ h W2 n k).

(** *** Optimizer (spec 4.4) *)

(** Gradient descent: [new = weight - learning_rate * gradient]. *)
Definition spec_gd (lr : R) (w : ndarray R) (g : nat -> nat -> R) : ndarray R :=
  mk_array (shape0 w) (shape1 w) (fun i j => item w i j - lr * g i j).

(** The entry of a running statistic that is a number or an array. *)
Definition pyval_item (v : pyval R) (i j : nat) : R :=
  match v with
  | PyNum x => x
  | PyArr a => item a i j
  end.

(** [r <- gamma * gradient^2 + (1 - gamma) * r] *)
Definition spec_rms_r (gamma : R) (r : pyval R) (g : ndarray R) (i j : nat) : R :=
  gamma * (item g i j * item g i j) + (1 - gamma) * pyval_item r i j.

(** [velocity = alpha / (sqrt(r) + eps) * gradient] *)
Definition spec_rms_velocity (gamma alpha eps : R) (r : pyval R)
                             (g : ndarray R) (i j : nat) : R :=
  alpha / (sqrt (spec_rms_r gamma r g i j) + eps) * item g i j.

(** The running statistic is a number, or an array of the gradient's
    shape. *)
Definition r_fits (r : pyval R) (g : ndarray R) : Prop :=
  match r with
  | PyNum _ => True
  | PyArr a => shape a = shape g
  end.

(** Every entry of a running statistic is at least 0. *)
Definition r_nonneg (r : pyval R) : Prop :=
  match r with
  | PyNum x => 0 <= x
  | PyArr a => forall i j, (i < shape0 a)%nat -> (j < shape1 a)%nat ->
                           0 <= item a i j
  end.

(** *** Accuracy (spec 8) *)



(** *** Shapes that numpy accepts *)

(** [w -= g]: [g] has to broadcast to the shape of [w]. *)
Definition fits (g w : nat * nat) : bool :=
  (Nat.eqb (fst g) (fst w) || Nat.eqb (fst g) 1) &&
  (Nat.eqb (snd g) (snd w) || Nat.eqb (snd g) 1).

(** The shapes [backprop] runs through without an exception, operation
    by operation. *)
Definition backprop_accepts (sy sy_ sh sW2 sW1 sb2 sb1 sx : nat * nat) : bool :=
  match bdim (fst sy_) (fst sy), bdim (snd sy_) (snd sy) with
  | Some N, Some C =>                              (* y_ - y *)
      Nat.eqb N (fst sh) &&                        (* np.dot(dLdy_.T, h) *)
      Nat.eqb C (snd sW2) &&                       (* np.dot(dLdy_, W2.T) *)
      match bdim (snd sh) (fst sW2) with           (* np.multiply(.., ..) *)
      | Some K =>
          Nat.eqb (fst sx) N &&                    (* np.dot(x.T, delta_h) *)
          fits (snd sh, C) sW2 && fits (1%nat, C) sb2 &&
          fits (snd sx, K) sW1 && fits (1%nat, K) sb1
      | None => false
      end
  | _, _ => false
  end.

(** The shapes [forward_pass] runs through without an exception. *)
Definition forward_accepts (sx sW1 sb1 sW2 sb2 : nat * nat) : bool :=
  Nat.eqb (snd sx) (fst sW1) &&
  match bdim (fst sx) (fst sb1), bdim (snd sW1) (snd sb1) with
  | Some N, Some K =>
      Nat.eqb K (fst sW2) &&
      match bdim N (fst sb2), bdim (snd sW2) (snd sb2) with
      | Some _, Some _ => true
      | _, _ => false
      end
  | _, _ => false
  end.

(** The shapes [log_loss] runs through without an exception. *)
Definition log_loss_accepts (st sp : nat * nat) : bool :=
  match bdim (fst st) (fst sp), bdim (snd st) (snd sp) with
  | Some _, Some _ => true
  | _, _ => false
  end.

(** The stores [s] and [s'] hold arrays of the same shapes. *)
Definition same_shapes {T : Type} (s s' : store T) : Prop :=
  forall l, shape <$> (s' !! l) = shape <$> (s !! l).

(** *** The loss as a function of the parameters *)

(** The array [a] with [a[i][j] = x]. *)
Definition set_item (a : ndarray R) (i j : nat) (x : R) : ndarray R :=
  mk_array (shape0 a) (shape1 a)
    (fun i' j' => if Nat.eqb i' i && Nat.eqb j' j then x else item a i' j').

(** [log_loss(true_output, softmax(vector))], the loss as a function of
    the pre-activations of the output layer. *)
Definition loss_of_logits (true_output vector : ndarray R) : R :=
  match softmax vector with
  | Some net_output =>
      match log_loss true_output net_output with
      | Some loss => loss
      | None => 0
      end
  | None => 0
  end.

(** The loss of one row against softmax predictions, in terms of the
    pre-activations [row]. *)
Definition row_loss_of_logits (t : ndarray R) (C : nat) (a : nat)
                              (row : nat -> R) : R :=
  (- Rsum C (fun b => item t a b * row b)
   + Rsum C (item t a) * ln (Rsum C (fun b => exp (row b)))) / INR C.

(** The loss of the network on a batch:
    [log_loss(label, forward_pass(...)[0])]. *)
Definition network_loss (input W1 b1 W2 b2 label : ndarray R) : R :=
  match forward_pass input W1 b1 W2 b2 with
  | Some (output_layer, _) =>
      match log_loss label output_layer with
      | Some loss => loss
      | None => 0
      end
  | None => 0
  end.

(** *** A small network for examples *)

Definition ex_x : ndarray R := NDArray 1 1 [[1]].
Definition ex_W1 : ndarray R := NDArray 1 1 [[0]].
Definition ex_b1 : ndarray R := NDArray 1 1 [[0]].
Definition ex_W2 : ndarray R := NDArray 1 2 [[0; 0]].
Definition ex_b2 : ndarray R := NDArray 1 2 [[0; 0]].
Definition ex_label : ndarray R := NDArray 1 2 [[1; 0]].

Definition ex_y_ : ndarray R := NDArray 1 2 [[0.5; 0.5]].
Definition ex_h : ndarray R := NDArray 1 1 [[0.5]].
Definition ex_w : ndarray R := NDArray 1 2 [[0; 0]].
Definition ex_g : ndarray R := NDArray 1 2 [[1; 1]].

(** The eight arguments of [backprop], at the locations 1 to 8. *)
Definition ex_store (y : ndarray R) : store R :=
  <[1%positive := y]> (<[2%positive := ex_y_]> (<[3%positive := ex_h]>
  (<[4%positive := ex_W2]> (<[5%positive := ex_W1]> (<[6%positive := ex_b2]>
  (<[7%positive := ex_b1]> (<[8%positive := ex_x]> ∅))))))).

(** The arguments of [backprop] as the training loop passes them: the
    predictions and the hidden layer are the results of [forward_pass]. *)
Definition ex_forward_store : store R :=
  <[1%positive := ex_label]>
  (<[2%positive := mk_array 1 2 (spec_predictions ex_x ex_W1 ex_b1 ex_W2 ex_b2)]>
  (<[3%positive := mk_array 1 1 (spec_hidden ex_x ex_W1 ex_b1)]>
  (<[4%positive := ex_W2]> (<[5%positive := ex_W1]> (<[6%positive := ex_b2]>
  (<[7%positive := ex_b1]> (<[8%positive := ex_x]> ∅))))))).

(** ** Arrays: shapes and items *)

Section ArrayFacts.
Context {T : Type} `{Float T}.

Lemma item_mk_array (n m : nat) (f : nat -> nat -> T) (i j : nat) :
  (i < n)%nat -> (j < m)%nat -> item (mk_array n m f) i j = f i j.
Proof.
  intros Hi Hj. unfold item, mk_array, tabulate. simpl.
  rewrite (nth_indep _ [] (map (fun j => f 0%nat j) (seq 0 m)))
    by (rewrite length_map, length_seq; exact Hi).
  rewrite (map_nth (fun i => map (fun j => f i j) (seq 0 m)) (seq 0 n) 0%nat i).
  rewrite seq_nth by exact Hi. simpl.
  rewrite (nth_indep _ (of_int 0) (f i 0%nat))
    by (rewrite length_map, length_seq; exact Hj).
  rewrite (map_nth (fun j => f i j) (seq 0 m) 0%nat j).
  rewrite seq_nth by exact Hj. reflexivity.
Qed.


Lemma map_seq_ext {A} (f g : nat -> A) (s n : nat) :
  (forall i, (s <= i < s + n)%nat -> f i = g i) ->
  map f (seq s n) = map g (seq s n).
Proof.
  intros E. apply map_ext_in. intros i Hi. apply in_seq in Hi. apply E. lia.
Qed.

Lemma mk_array_ext n m (f g : nat -> nat -> T) :
  (forall i j, (i < n)%nat -> (j < m)%nat -> f i j = g i j) ->
  mk_array n m f = mk_array n m g.
Proof.
  intros E. unfold mk_array, tabulate. f_equal.
  apply map_seq_ext. intros i Hi. apply map_seq_ext. intros j Hj.
  apply E; lia.
Qed.

Lemma sigma_ext n (f g : nat -> T) :
  (forall k, (k < n)%nat -> f k = g k) -> sigma n f = sigma n g.
Proof.
  intros E. unfold sigma. f_equal. apply map_seq_ext. intros; apply E; lia.
Qed.

Lemma bdim_refl n : bdim n n = Some n.
Proof. unfold bdim. now rewrite Nat.eqb_refl. Qed.

Lemma bdim_1_r n : bdim n 1 = Some n.
Proof.
  unfold bdim. destruct (Nat.eqb_spec n 1) as [->|]; [reflexivity|].
  reflexivity.
Qed.

Lemma bdim_Some n m k :
  bdim n m = Some k <->
  (n = m /\ k = n) \/ (n = 1%nat /\ k = m) \/ (m = 1%nat /\ k = n).
Proof.
  unfold bdim.
  destruct (Nat.eqb_spec n m), (Nat.eqb_spec n 1), (Nat.eqb_spec m 1);
    split; intros E; try (inversion E; subst); try lia; try (f_equal; lia);
    intuition (try discriminate; try lia).
Qed.

Lemma bdim_None n m :
  bdim n m = None <-> (n <> m /\ n <> 1%nat /\ m <> 1%nat).
Proof.
  unfold bdim.
  destruct (Nat.eqb_spec n m), (Nat.eqb_spec n 1), (Nat.eqb_spec m 1);
    split; intros E; try discriminate; try lia; auto.
Qed.

Lemma bidx_lt n i : (i < n)%nat -> bidx n i = i.
Proof. unfold bidx. destruct (Nat.eqb_spec n 1); lia. Qed.

Lemma bidx_1 i : bidx 1 i = 0%nat.
Proof. reflexivity. Qed.

End ArrayFacts.

(** ** Array operations on operands of one shape *)

Section SameShape.
Context {T : Type} `{Float T}.

Lemma ufunc2_same (f : T -> T -> T) (a b : ndarray T) :
  shape0 a = shape0 b -> shape1 a = shape1 b ->
  ufunc2 f a b =
  Some (mk_array (shape0 a) (shape1 a)
          (fun i j => f (item a i j) (item b i j))).
Proof.
  intros H0 H1. unfold ufunc2. rewrite <- H0, <- H1, !bdim_refl. simpl.
  f_equal. apply mk_array_ext. intros i j Hi Hj. unfold bitem.
  rewrite <- H0, <- H1, !bidx_lt by assumption. reflexivity.
Qed.

Lemma np_dot_same (a b : ndarray T) :
  shape1 a = shape0 b ->
  np_dot a b =
  Some (mk_array (shape0 a) (shape1 b)
          (fun i j => sigma (shape1 a) (fun k => item a i k * item b k j)%fl)).
Proof. intros E. unfold np_dot. now rewrite E, Nat.eqb_refl. Qed.

Lemma np_isub_same (x y : ndarray T) :
  shape0 x = shape0 y -> shape1 x = shape1 y ->
  np_isub x y =
  Some (mk_array (shape0 x) (shape1 x)
          (fun i j => item x i j - item y i j)%fl).
Proof.
  intros H0 H1. unfold np_isub, np_subtract.
  rewrite ufunc2_same by assumption. simpl.
  destruct (decide _) as [|n]; [reflexivity|]. now destruct n.
Qed.

Lemma py_load_Some (s : store T) (l : loc) (a : ndarray T) :
  s !! l = Some a -> py_load l s = Some (a, s).
Proof. intros E. unfold py_load. now rewrite E. Qed.

Lemma update_weights_same (s : store T) (l : loc) (w g : ndarray T) (lr : T) :
  s !! l = Some w -> shape0 g = shape0 w -> shape1 g = shape1 w ->
  update_weights l g lr s =
  Some (l, <[l := mk_array (shape0 w) (shape1 w)
                    (fun i j => item w i j - lr * item g i j)%fl]> s).
Proof.
  intros E H0 H1. unfold update_weights, py_bind.
  rewrite (py_load_Some _ _ _ E). unfold py_lift.
  rewrite np_isub_same by (simpl; congruence). simpl.
  unfold py_ret. do 3 f_equal. apply mk_array_ext. intros i j Hi Hj.
  unfold ufunc1. rewrite item_mk_array by lia. reflexivity.
Qed.

Lemma log_loss_same_shape (t p : ndarray T) :
  shape t = shape p ->
  log_loss t p =
  Some (np_mean
          (map (fun i => fneg (sigma (shape1 p)
                  (fun j => (item t i j * flog (item p i j))
                            / of_int (Z.of_nat (shape1 p))))%fl)
               (seq 0 (shape0 p)))).
Proof.
  intros Hs. unfold shape in Hs. injection Hs as H0 H1.
  unfold log_loss, np_multiply. rewrite ufunc2_same by assumption.
  cbn [mbind option_bind]. do 2 f_equal.
  unfold np_sum_axis1. rewrite map_map.
  change (shape0 (ufunc1 _ (mk_array ?n _ _))) with n.
  change (shape1 (ufunc1 _ (mk_array _ ?m _))) with m.
  rewrite H0, H1.
  apply map_seq_ext. intros i Hi. f_equal.
  apply sigma_ext. intros j Hj.
  unfold ufunc1 at 1. rewrite !item_mk_array by (simpl; lia).
  unfold np_log, ufunc1. now rewrite item_mk_array by lia.
Qed.

End SameShape.

(** ** Sums over the reals *)

Lemma sigma_Rsum (n : nat) (f : nat -> R) : sigma n f = Rsum n f.
Proof.
  unfold sigma, fsum. induction n as [|n IH]; [reflexivity|].
  rewrite seq_S, map_app, fold_left_app, IH. reflexivity.
Qed.

Lemma Rsum_ext (n : nat) (f g : nat -> R) :
  (forall k, (k < n)%nat -> f k = g k) -> Rsum n f = Rsum n g.
Proof.
  induction n as [|n IH]; intros E; simpl; [reflexivity|].
  rewrite IH, E by (intros; try apply E; lia). reflexivity.
Qed.

Lemma Rsum_div (n : nat) (f : nat -> R) (c : R) :
  Rsum n (fun k => f k / c) = Rsum n f / c.
Proof.
  unfold Rdiv. induction n as [|n IH]; simpl; [ring|]. rewrite IH. ring.
Qed.

Lemma Rsum_pos (n : nat) (f : nat -> R) :
  (0 < n)%nat -> (forall k, (k < n)%nat -> 0 < f k) -> 0 < Rsum n f.
Proof.
  induction n as [|n IH]; intros Hn Hf; [lia|]. simpl.
  destruct n as [|n].
  - simpl. specialize (Hf 0%nat ltac:(lia)). lra.
  - specialize (IH ltac:(lia) ltac:(intros; apply Hf; lia)).
    specialize (Hf (S n) ltac:(lia)). lra.
Qed.

(** ** Forward engine *)

(** Rewrites the item of a tabulated array at indices in range. *)
Ltac items :=
  rewrite ?bidx_1;
  repeat (rewrite item_mk_array by (simpl; lia); rewrite ?bidx_1); simpl.

Lemma softmax_spec (o : ndarray R) :
  softmax o =
  Some (mk_array (shape0 o) (shape1 o)
          (fun i j => spec_softmax (shape1 o) (item o i) j)).
Proof.
  unfold softmax, np_divide, ufunc2, np_exp, np_sum_axis1_keepdims, ufunc1.
  simpl. rewrite bdim_refl, bdim_1_r. simpl. f_equal.
  apply mk_array_ext. intros i j Hi Hj. unfold bitem. simpl.
  rewrite !bidx_lt by assumption. items.
  unfold spec_softmax. f_equal. rewrite sigma_Rsum.
  apply Rsum_ext. intros k Hk. now items.
Qed.

Lemma forward_pass_value (input W1 b1 W2 b2 : ndarray R) :
  shape1 input = shape0 W1 ->
  shape b1 = (1%nat, shape1 W1) ->
  shape1 W1 = shape0 W2 ->
  shape b2 = (1%nat, shape1 W2) ->
  forward_pass input W1 b1 W2 b2 =
  Some (mk_array (shape0 input) (shape1 W2)
          (spec_predictions input W1 b1 W2 b2),
        mk_array (shape0 input) (shape1 W1) (spec_hidden input W1 b1)).
Proof.
  intros HxW Hb1 HWW Hb2. unfold shape in Hb1, Hb2.
  injection Hb1 as Hb10 Hb11. injection Hb2 as Hb20 Hb21.
  assert (Hh : sigmoid (mk_array (shape0 input) (shape1 W1)
                 (spec_hidden_pre input W1 b1)) =
               mk_array (shape0 input) (shape1 W1) (spec_hidden input W1 b1)).
  { unfold sigmoid, np_exp, np_negative, ufunc1. simpl.
    apply mk_array_ext. intros i j Hi Hj. now items. }
  unfold forward_pass, np_dot, np_add, ufunc2.
  rewrite HxW, Nat.eqb_refl. simpl.
  rewrite Hb10, Hb11, bdim_1_r, bdim_refl. simpl.
  erewrite (mk_array_ext _ _ _ (spec_hidden_pre input W1 b1)); cycle 1.
  { intros i j Hi Hj. unfold bitem. simpl. rewrite Hb10, Hb11. simpl.
    rewrite !bidx_lt by assumption. items.
    unfold spec_hidden_pre. rewrite sigma_Rsum, HxW. reflexivity. }
  rewrite Hh. simpl. rewrite HWW, Nat.eqb_refl. simpl.
  rewrite Hb20, Hb21, bdim_1_r, bdim_refl. simpl.
  rewrite softmax_spec. simpl. f_equal. f_equal.
  apply mk_array_ext. intros i j Hi Hj. unfold spec_predictions.
  assert (E : forall c, (c < shape1 W2)%nat ->
            item (mk_array (shape0 input) (shape1 W2)
              (fun i0 j0 =>
                 bitem (mk_array (shape0 input) (shape1 W2)
                          (fun i1 j1 => sigma (shape0 W2)
                             (fun k => item (mk_array (shape0 input) (shape0 W2)
                                               (spec_hidden input W1 b1)) i1 k
                                       * item W2 k j1))) i0 j0
                 + bitem b2 i0 j0)) i c
            = spec_output_pre input W1 b1 W2 b2 i c).
  { intros c Hc. items. unfold bitem. simpl. rewrite Hb20, Hb21. simpl.
    rewrite !bidx_lt by assumption. items.
    unfold spec_output_pre. rewrite sigma_Rsum. f_equal.
    apply Rsum_ext. intros k Hk. now items. }
  unfold spec_softmax. rewrite E by assumption. f_equal.
  apply Rsum_ext. intros k Hk. now rewrite E.
Qed.

(** C2: for dimensionally compatible arguments, [forward_pass] returns
    the pair (predictions, hidden_activations) with
    hidden_activations = sigmoid(input . W1 + b1), the bias row added to
    every batch row and sigmoid(x) = 1/(1+e^-x) taken element-wise, and
    predictions = softmax(hidden_activations . W2 + b2) taken row-wise,
    softmax(row)_i = e^(row_i) / sum_j e^(row_j). *)
Theorem forward_pass_spec (input W1 b1 W2 b2 : ndarray R) :
  shape1 input = shape0 W1 ->
  shape b1 = (1%nat, shape1 W1) ->
  shape1 W1 = shape0 W2 ->
  shape b2 = (1%nat, shape1 W2) ->
  forward_pass input W1 b1 W2 b2 =
  Some (mk_array (shape0 input) (shape1 W2)
          (spec_predictions input W1 b1 W2 b2),
        mk_array (shape0 input) (shape1 W1) (spec_hidden input W1 b1)).
Proof. exact (forward_pass_value input W1 b1 W2 b2). Qed.


(** ** Loss function *)

Lemma fsum_map_seq {T} `{Float T} (n : nat) (f : nat -> T) :
  fsum (map f (seq 0 n)) = sigma n f.
Proof. reflexivity. Qed.

(** C3: for labels and predictions of one shape (batch_size x
    num_classes), [log_loss] is the mean over the batch rows of
    row_loss = - sum_i true_i * ln(pred_i) / num_classes, the division by
    num_classes taken inside the sum. *)
Theorem log_loss_spec (true_output net_output : ndarray R) :
  shape true_output = shape net_output ->
  log_loss true_output net_output = Some (spec_loss true_output net_output).
Proof.
  intros Hs. rewrite (log_loss_same_shape _ _ Hs). f_equal.
  unfold np_mean. rewrite length_map, length_seq, fsum_map_seq, sigma_Rsum.
  simpl. rewrite <- !INR_IZR_INZ. unfold spec_loss. f_equal.
  apply Rsum_ext. intros i Hi. unfold spec_row_loss. f_equal.
  apply sigma_Rsum.
Qed.

(** ** Backpropagation engine *)

Lemma spec_gd_ext (lr : R) (w : ndarray R) (f g : nat -> nat -> R) :
  (forall i j, (i < shape0 w)%nat -> (j < shape1 w)%nat -> f i j = g i j) ->
  spec_gd lr w f = spec_gd lr w g.
Proof.
  intros E. apply mk_array_ext. intros i j Hi Hj. now rewrite E.
Qed.

Lemma GradientDescent_update_same (s : store R) (l : loc) (w g : ndarray R)
                                  (opt : GradientDescent R) :
  s !! l = Some w -> shape0 g = shape0 w -> shape1 g = shape1 w ->
  opt_update_weights opt l g s =
  Some ((opt, l), <[l := spec_gd (learning_rate opt) w (item g)]> s).
Proof.
  intros E H0 H1. simpl. unfold GradientDescent_update_weights, py_bind.
  rewrite (py_load_Some _ _ _ E). unfold py_lift.
  rewrite np_isub_same by (simpl; congruence). simpl.
  unfold py_ret, spec_gd. do 3 f_equal. apply mk_array_ext. intros i j Hi Hj.
  unfold ufunc1. rewrite item_mk_array by lia. reflexivity.
Qed.

Lemma update_weights_spec_gd (s : store R) (l : loc) (w : ndarray R)
                             (n m : nat) (f : nat -> nat -> R) (lr : R) :
  s !! l = Some w -> shape0 w = n -> shape1 w = m ->
  update_weights l (mk_array n m f) lr s =
  Some (l, <[l := spec_gd lr w f]> s).
Proof.
  intros E <- <-.
  rewrite (update_weights_same s l w) by (assumption || reflexivity).
  do 3 f_equal. apply mk_array_ext. intros i j Hi Hj. now items.
Qed.


(** ** Optimizers *)

Lemma RMSProp_update_same (self : RMSProp R) (s : store R) (l : loc)
                          (w g : ndarray R) :
  s !! l = Some w -> shape g = shape w -> r_fits (r self) g ->
  RMSProp_update_weights self l g s =
  Some (({| r := PyArr (mk_array (shape0 g) (shape1 g)
                          (spec_rms_r (gamma self) (r self) g));
            gamma := gamma self;
            velocity := PyArr (mk_array (shape0 g) (shape1 g)
                                 (spec_rms_velocity (gamma self) (alpha self)
                                    (eps self) (r self) g));
            alpha := alpha self;
            eps := eps self |}, l),
        <[l := spec_gd 1 w (spec_rms_velocity (gamma self) (alpha self)
                              (eps self) (r self) g)]> s).
Proof.
  intros E Hs Hr. unfold shape in Hs. injection Hs as Hs0 Hs1.
  unfold RMSProp_update_weights, py_bind.
  assert (Er : py_add_arr
                 (ufunc1 (fun x => gamma self * x)%fl (np_square g))
                 (py_scale (of_int 1 - gamma self)%fl (r self)) =
               Some (mk_array (shape0 g) (shape1 g)
                       (spec_rms_r (gamma self) (r self) g))).
  { destruct (r self) as [x|a]; simpl in *.
    - f_equal. unfold ufunc1. simpl. apply mk_array_ext. intros i j Hi Hj.
      unfold np_square, ufunc1. now items.
    - unfold shape in Hr. injection Hr as Hr0 Hr1.
      unfold np_add. rewrite ufunc2_same by (simpl; congruence). simpl.
      f_equal. apply mk_array_ext. intros i j Hi Hj.
      unfold np_square, ufunc1. items. unfold spec_rms_r. simpl.
      reflexivity. }
  rewrite Er. clear Er. unfold py_lift at 1.
  unfold np_multiply. rewrite ufunc2_same by reflexivity.
  unfold py_lift at 1. simpl.
  set (v := mk_array _ _ _).
  assert (Ev : v = mk_array (shape0 g) (shape1 g)
                     (spec_rms_velocity (gamma self) (alpha self) (eps self)
                        (r self) g)).
  { subst v. apply mk_array_ext. intros i j Hi Hj.
    unfold np_sqrt, ufunc1. now items. }
  clearbody v. subst v.
  rewrite (py_load_Some _ _ _ E). unfold py_lift.
  rewrite np_isub_same by (simpl; congruence). simpl.
  unfold py_ret. do 3 f_equal. unfold spec_gd.
  apply mk_array_ext. intros i j Hi Hj.
  rewrite item_mk_array by congruence. lra.
Qed.

(** C5: one update of the adaptive optimizer sets r to gamma * gradient^2
    + (1 - gamma) * r (element-wise), takes velocity = alpha / (sqrt(r) +
    eps) * gradient, and leaves weight - velocity in the weight tensor it
    returns; r starts at zero and the defaults are gamma = 0.9, alpha =
    0.001, eps = 1e-8. *)
Theorem RMSProp_update_spec (self : RMSProp R) (s : store R) (l : loc)
                            (w g : ndarray R) :
  s !! l = Some w -> shape g = shape w -> r_fits (r self) g ->
  exists r' velocity' w',
    RMSProp_update_weights self l g s =
    Some (({| r := PyArr r'; gamma := gamma self; velocity := PyArr velocity';
              alpha := alpha self; eps := eps self |}, l), <[l := w']> s) /\
    shape r' = shape g /\ shape velocity' = shape g /\ shape w' = shape w /\
    (forall i j, (i < shape0 g)%nat -> (j < shape1 g)%nat ->
       item r' i j = gamma self * (item g i j * item g i j)
                     + (1 - gamma self) * pyval_item (r self) i j /\
       item velocity' i j = alpha self / (sqrt (item r' i j) + eps self)
                            * item g i j /\
       item w' i j = item w i j - item velocity' i j) /\
    (forall gamma0 alpha0 eps0, r (RMSProp_init gamma0 alpha0 eps0) = PyNum 0) /\
    gamma RMSProp_default = 0.9 /\
    alpha RMSProp_default = 0.001 /\
    eps RMSProp_default = 1e-8.
Proof.
  intros E Hs Hr. eexists _, _, _.
  split; [apply RMSProp_update_same; eassumption|].
  assert (Hs' := Hs). unfold shape in Hs'. injection Hs' as Hs0 Hs1.
  repeat split; try reflexivity; simpl; try lra.
  - now items.
  - now items.
  - unfold spec_gd. rewrite item_mk_array by congruence. items. lra.
Qed.

(** C6 (amended): after one update of a freshly constructed adaptive
    optimizer, r = gamma * gradient^2 + (1 - gamma) * 0; with gamma = 0.9
    and gradient [1, 1] this is [0.9, 0.9]. *)
Theorem RMSProp_first_update (gamma0 alpha0 eps0 : R) (s : store R) (l : loc)
                             (w g : ndarray R) :
  s !! l = Some w -> shape g = shape w ->
  exists self' s',
    RMSProp_update_weights (RMSProp_init gamma0 alpha0 eps0) l g s =
    Some ((self', l), s') /\
    r self' = PyArr (mk_array (shape0 g) (shape1 g)
                       (fun i j => gamma0 * (item g i j * item g i j)
                                   + (1 - gamma0) * 0)) /\
    (gamma0 = 0.9 -> g = NDArray 1 2 [[1; 1]] ->
     r self' = PyArr (NDArray 1 2 [[0.9; 0.9]])).
Proof.
  intros E Hs. eexists _, _.
  split; [apply RMSProp_update_same; [eassumption|assumption|exact I]|].
  simpl. split; [reflexivity|].
  intros -> ->. unfold mk_array, tabulate, spec_rms_r, item. simpl.
  do 2 f_equal. repeat (f_equal; try lra).
Qed.

(** C6, as stated, fails: a fresh optimizer with gamma = 0.9 updated once
    with gradient [1, 1] does not hold r = [0.1, 0.1]. *)
Lemma RMSProp_first_update_not_tenth :
  exists self' s',
    RMSProp_update_weights RMSProp_default 1%positive (NDArray 1 2 [[1; 1]])
      {[ 1%positive := NDArray 1 2 [[0; 0]] ]} = Some ((self', 1%positive), s') /\
    r self' <> PyArr (NDArray 1 2 [[0.1; 0.1]]).
Proof.
  eexists _, _. split.
  - apply RMSProp_update_same;
      [apply lookup_singleton_eq | reflexivity | exact I].
  - simpl. unfold mk_array, tabulate, spec_rms_r, item. simpl.
    intros A. injection A as A _. lra.
Qed.

(** C10 (amended): an update writes weight - step into the weight tensor
    it was given and returns that same object; every other array object
    is untouched, the gradient-descent optimizer has no state to change,
    and the adaptive one changes only r and velocity. *)
Theorem update_weights_in_place (s : store R) (l : loc) (w g : ndarray R) :
  s !! l = Some w -> shape g = shape w ->
  (forall lr, exists w',
     update_weights l g lr s = Some (l, <[l := w']> s) /\
     w' = spec_gd lr w (item g)) /\
  (forall opt : GradientDescent R, exists w',
     opt_update_weights opt l g s = Some ((opt, l), <[l := w']> s) /\
     w' = spec_gd (learning_rate opt) w (item g)) /\
  (forall opt : RMSProp R, r_fits (r opt) g -> exists opt' w',
     opt_update_weights opt l g s = Some ((opt', l), <[l := w']> s) /\
     gamma opt' = gamma opt /\ alpha opt' = alpha opt /\ eps opt' = eps opt /\
     w' = spec_gd 1 w (spec_rms_velocity (gamma opt) (alpha opt) (eps opt)
                         (r opt) g)) /\
  (forall (w' : ndarray R) l', l' <> l -> <[l := w']> s !! l' = s !! l').
Proof.
  intros E Hs. assert (Hs' := Hs). unfold shape in Hs'.
  injection Hs' as Hs0 Hs1. repeat split.
  - intros lr. eexists. split; [|reflexivity].
    rewrite (update_weights_same s l w) by assumption. reflexivity.
  - intros opt. eexists. split; [|reflexivity].
    now apply GradientDescent_update_same.
  - intros opt Hr. eexists _, _. split.
    + simpl. apply RMSProp_update_same; eassumption.
    + repeat split; reflexivity.
  - intros w' l' Hne. now rewrite lookup_insert_ne.
Qed.

(** C10, as stated, fails: the update overwrites the array its
    weight-tensor argument refers to. *)
Lemma GradientDescent_update_mutates :
  let s : store R := {[ 1%positive := NDArray 1 1 [[1]] ]} in
  exists s',
    opt_update_weights {| learning_rate := 1 |} 1%positive
      (NDArray 1 1 [[1]]) s = Some (({| learning_rate := 1 |}, 1%positive), s') /\
    s' !! 1%positive <> s !! 1%positive.
Proof.
  eexists. split.
  - apply GradientDescent_update_same;
      [apply lookup_singleton_eq | reflexivity | reflexivity].
  - rewrite lookup_insert_eq, lookup_singleton_eq.
    unfold spec_gd, mk_array, tabulate, item. simpl.
    intros A. injection A as A. lra.
Qed.

(** ** Special values in the loss *)

Lemma finite_Fin (x : xreal) : finite x = true -> exists a, x = Fin a.
Proof. destruct x; try discriminate. eauto. Qed.

Lemma xadd_nonfinite_l (x y : xreal) :
  finite x = false -> finite (xadd x y) = false.
Proof. destruct x, y; simpl; congruence. Qed.

Lemma xadd_nonfinite_r (x y : xreal) :
  finite y = false -> finite (xadd x y) = false.
Proof. destruct x, y; simpl; congruence. Qed.

Lemma xneg_finite (x : xreal) : finite (xneg x) = finite x.
Proof. now destruct x. Qed.

Lemma xdiv_nonfinite (x : xreal) (b : R) :
  finite x = false -> finite (xdiv x (Fin b)) = false.
Proof.
  destruct x; simpl; try congruence; intros _;
    destruct (Rlt_dec b 0); reflexivity.
Qed.

Lemma xdiv_finite (a b : R) : b <> 0 -> xdiv (Fin a) (Fin b) = Fin (a / b).
Proof. intros Hb. simpl. now destruct (Req_dec_T b 0). Qed.

Lemma fold_xadd_nonfinite_acc (l : list xreal) (acc : xreal) :
  finite acc = false -> finite (fold_left xadd l acc) = false.
Proof.
  revert acc. induction l as [|x l IH]; intros acc Ha; simpl; [exact Ha|].
  apply IH. now apply xadd_nonfinite_l.
Qed.

Lemma fsum_nonfinite (l : list xreal) (x : xreal) :
  In x l -> finite x = false -> finite (fsum l) = false.
Proof.
  unfold fsum. generalize (of_int (T:=xreal) 0).
  induction l as [|z l IH]; intros acc Hin Hx; [destruct Hin|].
  simpl. destruct Hin as [->|Hin].
  - apply fold_xadd_nonfinite_acc. now apply xadd_nonfinite_r.
  - now apply IH.
Qed.

Lemma fsum_finite (l : list xreal) :
  Forall (fun x => finite x = true) l -> finite (fsum l) = true.
Proof.
  unfold fsum. generalize (eq_refl : finite (of_int (T:=xreal) 0) = true).
  generalize (of_int (T:=xreal) 0).
  induction l as [|z l IH]; intros acc Ha Hl; simpl; [exact Ha|].
  inversion_clear Hl as [|? ? Hz Hl'].
  apply IH; [|exact Hl'].
  destruct (finite_Fin _ Ha) as [a ->], (finite_Fin _ Hz) as [b ->].
  reflexivity.
Qed.

Lemma sigma_nonfinite (n k : nat) (f : nat -> xreal) :
  (k < n)%nat -> finite (f k) = false -> finite (sigma n f) = false.
Proof.
  intros Hk Hf. unfold sigma. apply (fsum_nonfinite _ (f k)); [|exact Hf].
  apply in_map, in_seq. lia.
Qed.

Lemma sigma_finite (n : nat) (f : nat -> xreal) :
  (forall k, (k < n)%nat -> finite (f k) = true) ->
  finite (sigma n f) = true.
Proof.
  intros Hf. unfold sigma. apply fsum_finite, Forall_forall.
  intros x Hx. apply list_elem_of_In, in_map_iff in Hx.
  destruct Hx as [k [<- Hk]]. apply in_seq in Hk. apply Hf. lia.
Qed.

(** C9 (amended): [log_loss] has no guard.  A prediction that is exactly
    zero where the label is 1 makes the result non-finite; the result is
    finite when the batch is not empty, the labels are finite and every
    prediction entry is finite and strictly positive. *)
Theorem log_loss_finiteness (true_output net_output : ndarray xreal) :
  shape true_output = shape net_output ->
  ((exists i j, (i < shape0 net_output)%nat /\ (j < shape1 net_output)%nat /\
                item true_output i j = Fin 1 /\ item net_output i j = Fin 0) ->
   exists v, log_loss true_output net_output = Some v /\ finite v = false) /\
  ((0 < shape0 net_output)%nat ->
   (forall i j, (i < shape0 net_output)%nat -> (j < shape1 net_output)%nat ->
      (exists a, item true_output i j = Fin a) /\
      (exists b, item net_output i j = Fin b /\ 0 < b)) ->
   exists v, log_loss true_output net_output = Some v /\ finite v = true).
Proof.
  intros Hs. rewrite (log_loss_same_shape _ _ Hs). split.
  - intros (i & j & Hi & Hj & Ht & Hp). eexists. split; [reflexivity|].
    unfold np_mean. apply xdiv_nonfinite.
    eapply fsum_nonfinite.
    + apply in_map_iff. exists i. split; [reflexivity|]. apply in_seq. lia.
    + cbn [fneg Float_xreal]. rewrite xneg_finite.
      apply (sigma_nonfinite _ j); [exact Hj|].
      rewrite Ht, Hp. cbn [fmul fdiv flog of_int Float_xreal].
      apply xdiv_nonfinite. simpl.
      destruct (Rlt_dec 0 0); [lra|]. simpl.
      destruct (Rlt_dec 0 1); [reflexivity|lra].
  - intros HN Hall. eexists. split; [reflexivity|].
    unfold np_mean. rewrite length_map, length_seq.
    assert (Hrow : forall i, (i < shape0 net_output)%nat ->
              finite (fneg (sigma (shape1 net_output)
                (fun j => (item true_output i j * flog (item net_output i j))
                          / of_int (Z.of_nat (shape1 net_output)))%fl))
              = true).
    { intros i Hi. cbn [fneg Float_xreal]. rewrite xneg_finite.
      apply sigma_finite. intros j Hj.
      destruct (Hall i j Hi Hj) as [[a ->] [b [-> Hb]]].
      cbn [fmul fdiv flog of_int Float_xreal]. simpl xlog.
      destruct (Rlt_dec 0 b); [|lra]. simpl xmul.
      rewrite xdiv_finite; [reflexivity|].
      rewrite <- INR_IZR_INZ. apply not_0_INR. lia. }
    match goal with
    | |- context [fsum ?l] => destruct (finite_Fin (fsum l)) as [v Hv]
    end.
    { apply fsum_finite, Forall_forall. intros z Hz.
      apply list_elem_of_In, in_map_iff in Hz.
      destruct Hz as [i [<- Hi]]. apply in_seq in Hi. apply Hrow. lia. }
    rewrite Hv. cbn [fdiv of_int Float_xreal].
    rewrite xdiv_finite; [reflexivity|].
    rewrite <- INR_IZR_INZ. apply not_0_INR. lia.
Qed.

(** C9, as stated, fails: with the one-hot label [1, 0] and the
    prediction [1, 0], strictly positive where the label is 1, the loss
    is nan (0 * log 0). *)
Lemma log_loss_zero_off_label :
  let true_output := NDArray 1 2 [[Fin 1; Fin 0]] in
  let net_output := NDArray 1 2 [[Fin 1; Fin 0]] in
  (forall i j, item true_output i j = Fin 1 ->
               exists b, item net_output i j = Fin b /\ 0 < b) /\
  log_loss true_output net_output = Some NaN.
Proof.
  split.
  - intros [|[|i]] [|[|j]]; simpl; intros E; try (exists 1; split; [reflexivity|lra]);
      try (injection E as E; lra); destruct j; injection E as E; lra.
  - rewrite log_loss_same_shape by reflexivity. f_equal.
    unfold np_mean, sigma, fsum, item. simpl.
    destruct (Rlt_dec 0 1); [|lra]. destruct (Rlt_dec 0 0); [lra|].
    simpl. destruct (Req_dec_T (IZR (Z.of_nat 2)) 0) as [e|_];
      [change (Z.of_nat 2) with 2%Z in e; lra|].
    reflexivity.
Qed.

(** ** Accuracy *)

Section ArgmaxFacts.
Context {T : Type} `{Float T}.




End ArgmaxFacts.




(** ** Shape errors *)

Section ShapeFacts.
Context {T : Type} `{Float T}.

Lemma ufunc2_shape (f : T -> T -> T) (a b : ndarray T) :
  ufunc2 f a b =
  match bdim (shape0 a) (shape0 b), bdim (shape1 a) (shape1 b) with
  | Some n, Some m =>
      Some (mk_array n m (fun i j => f (bitem a i j) (bitem b i j)))
  | _, _ => None
  end.
Proof.
  unfold ufunc2. destruct (bdim (shape0 a) (shape0 b)); [|reflexivity].
  simpl. now destruct (bdim (shape1 a) (shape1 b)).
Qed.

Lemma np_isub_shape (x y r0 : ndarray T) :
  np_isub x y = Some r0 -> shape r0 = shape x.
Proof.
  unfold np_isub. destruct (np_subtract x y) as [r1|]; [|discriminate].
  simpl. destruct (decide _); [|discriminate]. now intros [= <-].
Qed.

Lemma np_isub_fits (x y : ndarray T) :
  np_isub x y = None <-> fits (shape y) (shape x) = false.
Proof.
  unfold np_isub, np_subtract. rewrite ufunc2_shape.
  unfold fits, bdim, shape. simpl.
  destruct (Nat.eqb_spec (shape0 x) (shape0 y)),
           (Nat.eqb_spec (shape0 y) (shape0 x)),
           (Nat.eqb_spec (shape0 x) 1), (Nat.eqb_spec (shape0 y) 1),
           (Nat.eqb_spec (shape1 x) (shape1 y)),
           (Nat.eqb_spec (shape1 y) (shape1 x)),
           (Nat.eqb_spec (shape1 x) 1), (Nat.eqb_spec (shape1 y) 1);
    simpl; try lia;
    try (destruct (decide _) as [e'|n'];
         [apply pair_equal_spec in e'|]);
    (split; intros A; try reflexivity; try discriminate);
    exfalso; try lia; apply n'; f_equal; lia.
Qed.

Lemma same_shapes_lookup (s s' : store T) (l : loc) (w : ndarray T) :
  same_shapes s s' -> s !! l = Some w ->
  exists w', s' !! l = Some w' /\ shape w' = shape w.
Proof.
  intros Hss E. specialize (Hss l). rewrite E in Hss. simpl in Hss.
  destruct (s' !! l) as [w'|]; [|discriminate]. simpl in Hss.
  exists w'. split; [reflexivity|congruence].
Qed.

Lemma update_weights_shapes (s : store T) (l : loc) (w g : ndarray T) (lr : T) :
  s !! l = Some w ->
  if fits (shape g) (shape w)
  then exists s', update_weights l g lr s = Some (l, s') /\ same_shapes s s'
  else update_weights l g lr s = None.
Proof.
  intros E. unfold update_weights, py_bind.
  rewrite (py_load_Some _ _ _ E). unfold py_lift.
  set (g' := ufunc1 _ g).
  assert (Hg : shape g' = shape g) by reflexivity.
  destruct (np_isub w g') as [w'|] eqn:Ei.
  - assert (Hf : fits (shape g) (shape w) = true).
    { rewrite <- Hg. destruct (fits _ _) eqn:F; [reflexivity|].
      apply np_isub_fits in F. congruence. }
    rewrite Hf. eexists. split; [reflexivity|].
    intros l'. destruct (decide (l' = l)) as [->|Hne].
    + rewrite lookup_insert_eq, E. simpl. f_equal.
      now apply np_isub_shape in Ei.
    + now rewrite lookup_insert_ne.
  - apply np_isub_fits in Ei. rewrite Hg in Ei. now rewrite Ei.
Qed.

End ShapeFacts.

Section BackpropShapes.
Context {T : Type} `{Float T}.

(** Four updates in a row, as at the end of [backprop]. *)
Lemma four_updates_None_iff (LR : T) (s : store T) (l1 l2 l3 l4 : loc)
    (w1 w2 w3 w4 g1 g2 g3 g4 : ndarray T) :
  s !! l1 = Some w1 -> s !! l2 = Some w2 ->
  s !! l3 = Some w3 -> s !! l4 = Some w4 ->
  py_bind (update_weights l1 g1 LR) (fun a =>
    py_bind (update_weights l2 g2 LR) (fun b =>
      py_bind (update_weights l3 g3 LR) (fun c =>
        py_bind (update_weights l4 g4 LR) (fun d =>
          py_ret (a, b, c, d))))) s = None <->
  fits (shape g1) (shape w1) && fits (shape g2) (shape w2) &&
  fits (shape g3) (shape w3) && fits (shape g4) (shape w4) = false.
Proof.
  intros E1 E2 E3 E4. unfold py_bind.
  pose proof (update_weights_shapes s l1 w1 g1 LR E1) as U1.
  destruct (fits (shape g1) (shape w1)); [|rewrite U1; now split].
  destruct U1 as (s1 & -> & S1).
  destruct (same_shapes_lookup _ _ _ _ S1 E2) as (w2' & E2' & <-).
  destruct (same_shapes_lookup _ _ _ _ S1 E3) as (w3' & E3' & <-).
  destruct (same_shapes_lookup _ _ _ _ S1 E4) as (w4' & E4' & <-).
  pose proof (update_weights_shapes s1 l2 w2' g2 LR E2') as U2.
  destruct (fits (shape g2) (shape w2')); [|rewrite U2; now split].
  destruct U2 as (s2 & -> & S2).
  destruct (same_shapes_lookup _ _ _ _ S2 E3') as (w3'' & E3'' & <-).
  destruct (same_shapes_lookup _ _ _ _ S2 E4') as (w4'' & E4'' & <-).
  pose proof (update_weights_shapes s2 l3 w3'' g3 LR E3'') as U3.
  destruct (fits (shape g3) (shape w3'')); [|rewrite U3; now split].
  destruct U3 as (s3 & -> & S3).
  destruct (same_shapes_lookup _ _ _ _ S3 E4'') as (w4''' & E4''' & <-).
  pose proof (update_weights_shapes s3 l4 w4''' g4 LR E4''') as U4.
  destruct (fits (shape g4) (shape w4''')); [|rewrite U4; now split].
  destruct U4 as (s4 & -> & S4). simpl. now split.
Qed.

Lemma backprop_None_iff (LR : T) (s : store T)
    (ly ly_ lh lW2 lW1 lb2 lb1 lx : loc)
    (y y_ h W2 W1 b2 b1 x : ndarray T) :
  s !! ly = Some y -> s !! ly_ = Some y_ -> s !! lh = Some h ->
  s !! lW2 = Some W2 -> s !! lW1 = Some W1 ->
  s !! lb2 = Some b2 -> s !! lb1 = Some b1 -> s !! lx = Some x ->
  backprop LR ly ly_ lh lW2 lW1 lb2 lb1 lx s = None <->
  backprop_accepts (shape y) (shape y_) (shape h) (shape W2) (shape W1)
                   (shape b2) (shape b1) (shape x) = false.
Proof.
  intros Hy Hy_ Hh HW2 HW1 Hb2 Hb1 Hx.
  unfold backprop. unfold py_bind at 1 2 3.
  rewrite (py_load_Some _ _ _ Hy_), (py_load_Some _ _ _ Hy).
  unfold py_lift at 1, np_subtract. rewrite ufunc2_shape.
  unfold backprop_accepts, shape. cbn [fst snd].
  destruct (bdim (shape0 y_) (shape0 y)) as [N|]; [|now split].
  destruct (bdim (shape1 y_) (shape1 y)) as [C|]; [|now split].
  unfold py_bind at 1 2. rewrite (py_load_Some _ _ _ Hh).
  unfold py_lift at 1, np_dot at 1.
  cbn [shape0 shape1 np_transpose ufunc1 mk_array].
  destruct (Nat.eqb_spec N (shape0 h)) as [EN|]; [|now split].
  unfold py_bind at 1. unfold py_lift at 1, np_multiply at 1.
  rewrite ufunc2_same by reflexivity.
  unfold py_bind at 1 2. rewrite (py_load_Some _ _ _ HW2).
  unfold py_lift at 1, np_dot at 1.
  cbn [shape0 shape1 np_transpose ufunc1 mk_array].
  destruct (Nat.eqb_spec C (shape1 W2)) as [EC|]; [|now split].
  unfold py_bind at 1. unfold py_lift at 1, np_multiply at 1.
  rewrite ufunc2_shape. cbn [shape0 shape1 mk_array].
  rewrite <- EN, bdim_refl.
  destruct (bdim (shape1 h) (shape0 W2)) as [K|]; [|now split].
  unfold py_bind at 1 2. rewrite (py_load_Some _ _ _ Hx).
  unfold py_lift at 1, np_dot at 1.
  cbn [shape0 shape1 np_transpose ufunc1 mk_array].
  destruct (Nat.eqb_spec (shape0 x) N) as [Ex|]; [|now split].
  cbn [andb].
  rewrite (four_updates_None_iff LR s lW2 lb2 lW1 lb1 W2 b2 W1 b1)
    by assumption.
  unfold shape. cbn [shape0 shape1 np_transpose np_sum_axis0_keepdims
                     ufunc1 mk_array].
  reflexivity.
Qed.

Lemma forward_pass_None_iff (x W1 b1 W2 b2 : ndarray T) :
  forward_pass x W1 b1 W2 b2 = None <->
  forward_accepts (shape x) (shape W1) (shape b1) (shape W2) (shape b2) = false.
Proof.
  unfold forward_pass, forward_accepts, shape. cbn [fst snd].
  unfold np_dot, np_add.
  destruct (Nat.eqb_spec (shape1 x) (shape0 W1)) as [E1|]; [|now split].
  cbn [mbind option_bind andb]. rewrite ufunc2_shape.
  cbn [shape0 shape1 mk_array].
  destruct (bdim (shape0 x) (shape0 b1)) as [N|]; [|now split].
  destruct (bdim (shape1 W1) (shape1 b1)) as [K|]; [|now split].
  cbn [mbind option_bind shape0 shape1 sigmoid np_exp np_negative ufunc1
       mk_array].
  destruct (Nat.eqb_spec K (shape0 W2)) as [E2|]; [|now split].
  cbn [mbind option_bind andb]. rewrite ufunc2_shape.
  cbn [shape0 shape1 mk_array].
  destruct (bdim N (shape0 b2)) as [N'|]; [|now split].
  destruct (bdim (shape1 W2) (shape1 b2)) as [C|]; [|now split].
  cbn [mbind option_bind]. unfold softmax, np_divide. rewrite ufunc2_shape.
  cbn [shape0 shape1 np_exp np_sum_axis1_keepdims ufunc1 mk_array].
  rewrite bdim_refl, bdim_1_r. now split.
Qed.

Lemma log_loss_None_iff (t p : ndarray T) :
  log_loss t p = None <-> log_loss_accepts (shape t) (shape p) = false.
Proof.
  unfold log_loss, np_multiply, log_loss_accepts, shape. cbn [fst snd].
  rewrite ufunc2_shape. cbn [shape0 shape1 np_log ufunc1 mk_array].
  destruct (bdim (shape0 t) (shape0 p)); [|now split].
  destruct (bdim (shape1 t) (shape1 p)); now split.
Qed.

Lemma update_weights_None_iff (s : store T) (l : loc) (w g : ndarray T)
                              (lr : T) :
  s !! l = Some w ->
  update_weights l g lr s = None <-> fits (shape g) (shape w) = false.
Proof.
  intros E. pose proof (update_weights_shapes s l w g lr E) as U.
  destruct (fits (shape g) (shape w)).
  - destruct U as (s' & -> & _). now split.
  - now split.
Qed.

Lemma GradientDescent_update_weights_eq (self : GradientDescent T)
    (s : store T) (l : loc) (g : ndarray T) :
  GradientDescent_update_weights self l g s =
  match update_weights l g (learning_rate self) s with
  | Some (l', s') => Some ((self, l'), s')
  | None => None
  end.
Proof.
  unfold GradientDescent_update_weights, update_weights, py_bind.
  destruct (py_load l s) as [[w s0]|]; [|reflexivity].
  destruct (py_lift _ s0) as [[w' s1]|]; reflexivity.
Qed.

Lemma GradientDescent_update_None_iff (self : GradientDescent T)
    (s : store T) (l : loc) (w g : ndarray T) :
  s !! l = Some w ->
  opt_update_weights self l g s = None <-> fits (shape g) (shape w) = false.
Proof.
  intros E. rewrite <- (update_weights_None_iff s l w g (learning_rate self) E).
  cbn [opt_update_weights GradientDescent_Optimizer].
  rewrite GradientDescent_update_weights_eq.
  destruct (update_weights l g (learning_rate self) s) as [[l' s']|];
    now split.
Qed.

End BackpropShapes.

(** C8 (amended): [backprop], [forward_pass], [log_loss] and the
    optimizer update raise exactly when numpy's own shape rules are
    broken: a matrix product whose inner
    extents differ, an element-wise operation whose operands differ in
    a dimension where neither has extent 1, or an in-place update whose
    gradient does not broadcast to the shape of the parameter.  Operands
    that differ only in dimensions of extent 1 are broadcast. *)
Theorem shape_errors (LEARNING_RATE : R) (s : store R)
    (ly ly_ lh lW2 lW1 lb2 lb1 lx : loc)
    (y y_ h W2 W1 b2 b1 x : ndarray R) :
  s !! ly = Some y -> s !! ly_ = Some y_ -> s !! lh = Some h ->
  s !! lW2 = Some W2 -> s !! lW1 = Some W1 ->
  s !! lb2 = Some b2 -> s !! lb1 = Some b1 -> s !! lx = Some x ->
  (backprop LEARNING_RATE ly ly_ lh lW2 lW1 lb2 lb1 lx s = None <->
   backprop_accepts (shape y) (shape y_) (shape h) (shape W2) (shape W1)
                    (shape b2) (shape b1) (shape x) = false) /\
  (forward_pass x W1 b1 W2 b2 = None <->
   forward_accepts (shape x) (shape W1) (shape b1) (shape W2) (shape b2)
   = false) /\
  (log_loss y y_ = None <-> log_loss_accepts (shape y) (shape y_) = false) /\
  (forall (opt : GradientDescent R) (g : ndarray R),
     opt_update_weights opt lW2 g s = None <->
     fits (shape g) (shape W2) = false).
Proof.
  intros. repeat split.
  - now apply backprop_None_iff.
  - now apply backprop_None_iff.
  - apply forward_pass_None_iff.
  - apply forward_pass_None_iff.
  - apply log_loss_None_iff.
  - apply log_loss_None_iff.
  - now apply GradientDescent_update_None_iff.
  - now apply GradientDescent_update_None_iff.
Qed.

(** C8, as stated, fails: one row of labels against two rows of
    predictions is no bias broadcast, yet [backprop] runs through. *)
Lemma backprop_broadcasts_labels :
  let y := NDArray 1 2 [[1; 0]] in
  let y_ := NDArray 2 2 [[0.5; 0.5]; [0.5; 0.5]] in
  let h := NDArray 2 1 [[0.5]; [0.5]] in
  let W2 := NDArray 1 2 [[0; 0]] in
  let W1 := NDArray 1 1 [[0]] in
  let b2 := NDArray 1 2 [[0; 0]] in
  let b1 := NDArray 1 1 [[0]] in
  let x := NDArray 2 1 [[1]; [1]] in
  let s : store R :=
    <[1%positive := y]> (<[2%positive := y_]> (<[3%positive := h]>
    (<[4%positive := W2]> (<[5%positive := W1]> (<[6%positive := b2]>
    (<[7%positive := b1]> (<[8%positive := x]> ∅))))))) in
  shape y <> shape y_ /\
  backprop 0.1 1%positive 2%positive 3%positive 4%positive 5%positive
    6%positive 7%positive 8%positive s <> None.
Proof.
  split; [discriminate|].
  intros A.
  eapply backprop_None_iff in A; try reflexivity.
  discriminate A.
Qed.


Lemma argmax_list_pair (a b : R) : b = a -> argmax_list [a; b] = 0%nat.
Proof.
  intros ->. simpl. destruct (Rlt_dec a a) as [A|_]; [|reflexivity].
  exfalso. lra.
Qed.

Lemma argmax_list_1_0 : argmax_list [1; 0] = 0%nat.
Proof.
  simpl. destruct (Rlt_dec 1 0) as [A|_]; [|reflexivity]. exfalso. lra.
Qed.


(** ** The theorems at concrete inputs *)


Lemma forward_pass_spec_witness :
  forward_pass ex_x ex_W1 ex_b1 ex_W2 ex_b2 =
  Some (mk_array 1 2 (spec_predictions ex_x ex_W1 ex_b1 ex_W2 ex_b2),
        mk_array 1 1 (spec_hidden ex_x ex_W1 ex_b1)).
Proof.
  exact (forward_pass_spec ex_x ex_W1 ex_b1 ex_W2 ex_b2
           eq_refl eq_refl eq_refl eq_refl).
Defined.

Lemma log_loss_spec_witness :
  log_loss ex_label ex_y_ = Some (spec_loss ex_label ex_y_).
Proof. exact (log_loss_spec ex_label ex_y_ eq_refl). Defined.


Lemma RMSProp_update_spec_witness :
  exists self' s',
    RMSProp_update_weights RMSProp_default 1%positive ex_g
      {[ 1%positive := ex_w ]} = Some ((self', 1%positive), s').
Proof.
  destruct (RMSProp_update_spec RMSProp_default {[ 1%positive := ex_w ]}
              1%positive ex_w ex_g)
    as (r' & v' & w' & E & _).
  - apply lookup_singleton_eq.
  - reflexivity.
  - exact I.
  - eexists _, _. exact E.
Defined.

Lemma RMSProp_first_update_witness :
  exists self' s',
    RMSProp_update_weights (RMSProp_init 0.9 0.001 1e-8) 1%positive ex_g
      {[ 1%positive := ex_w ]} = Some ((self', 1%positive), s') /\
    r self' = PyArr (NDArray 1 2 [[0.9; 0.9]]).
Proof.
  destruct (RMSProp_first_update 0.9 0.001 1e-8 {[ 1%positive := ex_w ]}
              1%positive ex_w ex_g)
    as (self' & s' & E & _ & Hr).
  - apply lookup_singleton_eq.
  - reflexivity.
  - exists self', s'. split; [exact E|]. apply Hr; reflexivity.
Defined.


Lemma shape_errors_witness :
  backprop 0.1 1%positive 2%positive 3%positive 4%positive 5%positive
    6%positive 7%positive 8%positive (ex_store (NDArray 1 3 [[1; 0; 0]]))
  = None.
Proof.
  apply (proj1 (shape_errors 0.1 (ex_store (NDArray 1 3 [[1; 0; 0]]))
                  1%positive 2%positive 3%positive 4%positive 5%positive
                  6%positive 7%positive 8%positive
                  (NDArray 1 3 [[1; 0; 0]]) ex_y_ ex_h ex_W2 ex_W1 ex_b2
                  ex_b1 ex_x
                  eq_refl eq_refl eq_refl eq_refl
                  eq_refl eq_refl eq_refl eq_refl)).
  reflexivity.
Defined.

Lemma log_loss_finiteness_witness :
  exists v,
    log_loss (NDArray 1 2 [[Fin 1; Fin 0]]) (NDArray 1 2 [[Fin 0; Fin 1]])
    = Some v /\ finite v = false.
Proof.
  apply (proj1 (log_loss_finiteness
                  (NDArray 1 2 [[Fin 1; Fin 0]])
                  (NDArray 1 2 [[Fin 0; Fin 1]]) eq_refl)).
  exists 0%nat, 0%nat. simpl. repeat split; lia.
Defined.

Lemma update_weights_in_place_witness :
  exists w',
    update_weights 1%positive ex_g 0.1 {[ 1%positive := ex_w ]} =
    Some (1%positive, <[1%positive := w']> {[ 1%positive := ex_w ]}) /\
    w' = spec_gd 0.1 ex_w (item ex_g).
Proof.
  apply (proj1 (update_weights_in_place {[ 1%positive := ex_w ]} 1%positive
                  ex_w ex_g (lookup_singleton_eq _ _) eq_refl)).
Defined.

(** * Further properties of the code *)

(** ** sigmoid and softmax *)

Lemma item_sigmoid (v : ndarray R) (i j : nat) :
  (i < shape0 v)%nat -> (j < shape1 v)%nat ->
  item (sigmoid v) i j = spec_sigmoid (item v i j).
Proof.
  intros Hi Hj. unfold sigmoid, np_exp, np_negative, ufunc1. now items.
Qed.

Lemma spec_sigmoid_range (x : R) : 0 < spec_sigmoid x < 1.
Proof.
  unfold spec_sigmoid. pose proof (exp_pos (- x)) as He. split.
  - apply Rdiv_lt_0_compat; lra.
  - apply (Rmult_lt_reg_r (1 + exp (- x))); [lra|].
    unfold Rdiv. rewrite Rmult_assoc, Rinv_l by lra. lra.
Qed.

(** X1: every entry of [sigmoid(vector)] lies strictly between 0 and
    1. *)
Theorem sigmoid_in_unit_interval (vector : ndarray R) (i j : nat) :
  (i < shape0 vector)%nat -> (j < shape1 vector)%nat ->
  0 < item (sigmoid vector) i j < 1.
Proof.
  intros Hi Hj. rewrite item_sigmoid by assumption. apply spec_sigmoid_range.
Qed.

Lemma sigmoid_in_unit_interval_witness : 0 < item (sigmoid ex_x) 0 0 < 1.
Proof. apply (sigmoid_in_unit_interval ex_x 0 0); simpl; lia. Defined.

(** X2: [sigmoid(-vector) = 1 - sigmoid(vector)], entry by entry. *)
Theorem sigmoid_negative (vector : ndarray R) (i j : nat) :
  (i < shape0 vector)%nat -> (j < shape1 vector)%nat ->
  item (sigmoid (np_negative vector)) i j = 1 - item (sigmoid vector) i j.
Proof.
  intros Hi Hj. rewrite !item_sigmoid by assumption.
  unfold np_negative, ufunc1. items. unfold spec_sigmoid.
  rewrite Ropp_involutive, exp_Ropp.
  pose proof (exp_pos (item vector i j)) as He. field. lra.
Qed.

Lemma sigmoid_negative_witness :
  item (sigmoid (np_negative ex_x)) 0 0 = 1 - item (sigmoid ex_x) 0 0.
Proof. apply (sigmoid_negative ex_x 0 0); simpl; lia. Defined.

Lemma Rsum_scal (n : nat) (f : nat -> R) (c : R) :
  Rsum n (fun k => f k * c) = Rsum n f * c.
Proof. induction n as [|n IH]; simpl; [ring|]. rewrite IH. ring. Qed.

Lemma Rsum_exp_pos (n : nat) (row : nat -> R) :
  (0 < n)%nat -> 0 < Rsum n (fun j => exp (row j)).
Proof. intros Hn. apply Rsum_pos; [exact Hn|]. intros; apply exp_pos. Qed.



(** ** Rows of an array *)

Section RowFacts.
Context {T : Type} `{Float T}.

Lemma map_nth_seq {A : Type} (l : list A) (d : A) :
  map (fun j => nth j l d) (seq 0 (length l)) = l.
Proof.
  induction l as [|a l IH]; [reflexivity|].
  cbn [length]. rewrite <- cons_seq, <- seq_shift, map_cons, map_map.
  cbn [nth]. now rewrite IH.
Qed.


Lemma nth_data_wf (a : ndarray T) (i : nat) :
  wf a -> (i < shape0 a)%nat ->
  nth i (data a) [] = map (item a i) (seq 0 (shape1 a)).
Proof.
  intros [Hlen Hrows] Hi. unfold item.
  assert (Hrow : length (nth i (data a) []) = shape1 a).
  { rewrite Forall_forall in Hrows. apply Hrows, list_elem_of_In, nth_In. lia. }
  rewrite <- Hrow. symmetry. apply map_nth_seq.
Qed.

(** Reading every item of an array and tabulating them gives the array
    back. *)
Lemma mk_array_item (a : ndarray T) :
  wf a -> mk_array (shape0 a) (shape1 a) (item a) = a.
Proof.
  intros Hwf. destruct a as [n m rows]. unfold mk_array. f_equal.
  unfold tabulate. cbn [shape0 shape1].
  destruct Hwf as [Hlen Hrows]. cbn [data shape0 shape1] in Hlen, Hrows.
  transitivity (map (fun i => nth i rows []) (seq 0 (length rows)));
    [|apply map_nth_seq].
  rewrite Hlen. apply map_seq_ext. intros i Hi.
  change (map (fun j => item (NDArray n m rows) i j) (seq 0 m))
    with (map (item (NDArray n m rows) i) (seq 0 (shape1 (NDArray n m rows)))).
  rewrite <- nth_data_wf; [reflexivity| now split | simpl; lia].
Qed.



End RowFacts.



(** ** log_loss *)

Lemma log_loss_value (true_output net_output : ndarray R) :
  shape true_output = shape net_output ->
  log_loss true_output net_output = Some (spec_loss true_output net_output).
Proof.
  intros Hs. rewrite (log_loss_same_shape _ _ Hs). f_equal.
  unfold np_mean. rewrite length_map, length_seq, fsum_map_seq, sigma_Rsum.
  simpl. rewrite <- !INR_IZR_INZ. unfold spec_loss. f_equal.
  apply Rsum_ext. intros i Hi. unfold spec_row_loss. f_equal.
  apply sigma_Rsum.
Qed.

Lemma Rsum_opp (n : nat) (f : nat -> R) :
  Rsum n (fun k => - f k) = - Rsum n f.
Proof. induction n as [|n IH]; simpl; [ring|]. rewrite IH. ring. Qed.

Lemma Rsum_nonneg (n : nat) (f : nat -> R) :
  (forall k, (k < n)%nat -> 0 <= f k) -> 0 <= Rsum n f.
Proof.
  induction n as [|n IH]; intros Hf; simpl; [lra|].
  specialize (IH ltac:(intros; apply Hf; lia)).
  specialize (Hf n ltac:(lia)). lra.
Qed.

Lemma Rdiv_nonneg (a b : R) : 0 <= a -> 0 <= b -> 0 <= a / b.
Proof.
  intros Ha Hb. destruct (Req_dec_T b 0) as [->|Hne].
  - unfold Rdiv. rewrite Rinv_0. lra.
  - apply Rmult_le_pos; [exact Ha|]. apply Rlt_le, Rinv_0_lt_compat. lra.
Qed.

(** X5: [log_loss] is the usual mean cross-entropy divided by the
    number of classes. *)
Theorem log_loss_scaled_cross_entropy (true_output net_output : ndarray R) :
  shape true_output = shape net_output ->
  log_loss true_output net_output =
  Some (Rsum (shape0 net_output)
          (fun i => - Rsum (shape1 net_output)
                        (fun j => item true_output i j
                                  * ln (item net_output i j)))
        / INR (shape0 net_output) / INR (shape1 net_output)).
Proof.
  intros Hs. rewrite (log_loss_value _ _ Hs). f_equal.
  unfold spec_loss, spec_row_loss.
  rewrite (Rsum_ext _ _
             (fun i => - Rsum (shape1 net_output)
                           (fun j => item true_output i j
                                     * ln (item net_output i j))
                       / INR (shape1 net_output))).
  - rewrite Rsum_div. unfold Rdiv. ring.
  - intros i Hi. rewrite Rsum_div. unfold Rdiv. ring.
Qed.

Lemma log_loss_scaled_cross_entropy_witness :
  log_loss ex_label ex_y_ =
  Some (Rsum 1 (fun i => - Rsum 2 (fun j => item ex_label i j
                                            * ln (item ex_y_ i j)))
        / INR 1 / INR 2).
Proof. exact (log_loss_scaled_cross_entropy ex_label ex_y_ eq_refl). Defined.

Lemma spec_loss_nonneg (t p : ndarray R) :
  (forall i j, (i < shape0 p)%nat -> (j < shape1 p)%nat ->
     0 <= item t i j /\ 0 < item p i j <= 1) ->
  0 <= spec_loss t p.
Proof.
  intros Hall. unfold spec_loss.
  apply Rdiv_nonneg; [|apply pos_INR].
  apply Rsum_nonneg. intros i Hi. unfold spec_row_loss.
  rewrite <- Rsum_opp. apply Rsum_nonneg. intros j Hj.
  destruct (Hall i j Hi Hj) as [Ht [Hp0 Hp1]].
  assert (Hln : ln (item p i j) <= 0).
  { rewrite <- ln_1. destruct Hp1 as [Hlt | ->]; [|lra].
    apply Rlt_le, ln_increasing; assumption. }
  replace (- (item t i j * ln (item p i j) / INR (shape1 p)))
    with (item t i j * - ln (item p i j) / INR (shape1 p))
    by (unfold Rdiv; ring).
  apply Rdiv_nonneg; [|apply pos_INR].
  apply Rmult_le_pos; lra.
Qed.

(** X6: the loss is not negative when the labels are not negative and
    every prediction lies in (0, 1]. *)
Theorem log_loss_nonneg (true_output net_output : ndarray R) :
  shape true_output = shape net_output ->
  (forall i j, (i < shape0 net_output)%nat -> (j < shape1 net_output)%nat ->
     0 <= item true_output i j /\ 0 < item net_output i j <= 1) ->
  exists loss, log_loss true_output net_output = Some loss /\ 0 <= loss.
Proof.
  intros Hs Hall. eexists. split; [now apply log_loss_value|].
  now apply spec_loss_nonneg.
Qed.

Lemma log_loss_nonneg_witness :
  exists loss, log_loss ex_label ex_y_ = Some loss /\ 0 <= loss.
Proof.
  apply (log_loss_nonneg ex_label ex_y_ eq_refl).
  intros i j Hi Hj. simpl in Hi, Hj.
  assert (i = 0%nat) as -> by lia.
  assert (j = 0%nat \/ j = 1%nat) as [-> | ->] by lia;
    unfold item; simpl; lra.
Defined.

Lemma Rsum_ge_term (n j : nat) (f : nat -> R) :
  (forall k, (k < n)%nat -> 0 <= f k) -> (j < n)%nat -> f j <= Rsum n f.
Proof.
  induction n as [|n IH]; intros Hf Hj; [lia|]. simpl.
  pose proof (Rsum_nonneg n f ltac:(intros; apply Hf; lia)) as Hs.
  destruct (Nat.eq_dec j n) as [->|Hne]; [lra|].
  specialize (IH ltac:(intros; apply Hf; lia) ltac:(lia)).
  specialize (Hf n ltac:(lia)). lra.
Qed.

Lemma spec_softmax_range (C : nat) (row : nat -> R) (j : nat) :
  (j < C)%nat -> 0 < spec_softmax C row j <= 1.
Proof.
  intros Hj. unfold spec_softmax.
  assert (HS : 0 < Rsum C (fun k => exp (row k)))
    by (apply Rsum_exp_pos; lia).
  split.
  - apply Rdiv_lt_0_compat; [apply exp_pos | exact HS].
  - apply (Rmult_le_reg_r (Rsum C (fun k => exp (row k)))); [exact HS|].
    unfold Rdiv. rewrite Rmult_assoc, Rinv_l, Rmult_1_r, Rmult_1_l by lra.
    apply (Rsum_ge_term C j (fun k => exp (row k))); [|exact Hj].
    intros; apply Rlt_le, exp_pos.
Qed.

(** X7: the loss of the predictions [forward_pass] returns, against
    labels that are not negative, is defined and not negative: in exact
    arithmetic [np.log] never meets a zero there. *)
Theorem forward_pass_loss_nonneg (input W1 b1 W2 b2 label : ndarray R) :
  shape1 input = shape0 W1 ->
  shape b1 = (1%nat, shape1 W1) ->
  shape1 W1 = shape0 W2 ->
  shape b2 = (1%nat, shape1 W2) ->
  shape label = (shape0 input, shape1 W2) ->
  (forall i j, (i < shape0 input)%nat -> (j < shape1 W2)%nat ->
     0 <= item label i j) ->
  exists output_layer hidden_activations loss,
    forward_pass input W1 b1 W2 b2 = Some (output_layer, hidden_activations) /\
    (forall i j, (i < shape0 input)%nat -> (j < shape1 W2)%nat ->
       0 < item output_layer i j <= 1) /\
    log_loss label output_layer = Some loss /\ 0 <= loss.
Proof.
  intros HxW Hb1 HWW Hb2 Hl Hpos.
  eexists _, _, _. split; [now apply forward_pass_value|].
  assert (Hp : forall i j, (i < shape0 input)%nat -> (j < shape1 W2)%nat ->
             0 < item (mk_array (shape0 input) (shape1 W2)
                         (spec_predictions input W1 b1 W2 b2)) i j <= 1).
  { intros i j Hi Hj. rewrite item_mk_array by assumption.
    now apply spec_softmax_range. }
  split; [exact Hp|]. split; [now apply log_loss_value|].
  apply spec_loss_nonneg. intros i j Hi Hj. split; [now apply Hpos|].
  now apply Hp.
Qed.

Lemma forward_pass_loss_nonneg_witness :
  exists output_layer hidden_activations loss,
    forward_pass ex_x ex_W1 ex_b1 ex_W2 ex_b2
    = Some (output_layer, hidden_activations) /\
    log_loss ex_label output_layer = Some loss /\ 0 <= loss.
Proof.
  destruct (forward_pass_loss_nonneg ex_x ex_W1 ex_b1 ex_W2 ex_b2 ex_label
              eq_refl eq_refl eq_refl eq_refl eq_refl)
    as (o & h & loss & E & _ & L & P).
  - intros i j Hi Hj. simpl in Hi, Hj.
    assert (i = 0%nat) as -> by lia.
    assert (j = 0%nat \/ j = 1%nat) as [-> | ->] by lia;
      unfold item; simpl; lra.
  - exists o, h, loss. auto.
Defined.

Lemma xinf_nonfinite (b : bool) : finite (xinf b) = false.
Proof. now destruct b. Qed.

Lemma xmul_NInf_nonfinite (x : xreal) : finite (xmul x NInf) = false.
Proof.
  destruct x as [a| | |]; try reflexivity. simpl.
  destruct (Rlt_dec 0 a); [reflexivity|].
  destruct (Rlt_dec a 0); reflexivity.
Qed.

Lemma xmul_xlog_nonpositive (x : xreal) (b : R) :
  b <= 0 -> finite (xmul x (xlog (Fin b))) = false.
Proof.
  intros Hb. simpl xlog. destruct (Rlt_dec 0 b); [lra|].
  destruct (Rlt_dec b 0).
  - now destruct x.
  - apply xmul_NInf_nonfinite.
Qed.

(** X8: a prediction entry that is zero or negative makes the loss
    non-finite (inf or nan), whatever the labels are. *)
Theorem log_loss_nonpositive_prediction
    (true_output net_output : ndarray xreal) (i j : nat) (b : R) :
  shape true_output = shape net_output ->
  (i < shape0 net_output)%nat -> (j < shape1 net_output)%nat ->
  item net_output i j = Fin b -> b <= 0 ->
  exists loss, log_loss true_output net_output = Some loss /\
               finite loss = false.
Proof.
  intros Hs Hi Hj Hp Hb. rewrite (log_loss_same_shape _ _ Hs).
  eexists. split; [reflexivity|].
  unfold np_mean. apply xdiv_nonfinite. eapply fsum_nonfinite.
  - apply in_map_iff. exists i. split; [reflexivity|]. apply in_seq. lia.
  - cbn [fneg Float_xreal]. rewrite xneg_finite.
    apply (sigma_nonfinite _ j); [exact Hj|].
    rewrite Hp. cbn [fmul fdiv flog of_int Float_xreal].
    apply xdiv_nonfinite. now apply xmul_xlog_nonpositive.
Qed.

Lemma log_loss_nonpositive_prediction_witness :
  exists loss,
    log_loss (NDArray 1 2 [[Fin 0; Fin 1]]) (NDArray 1 2 [[Fin 0; Fin 1]])
    = Some loss /\ finite loss = false.
Proof.
  apply (log_loss_nonpositive_prediction _ _ 0 0 0 eq_refl);
    simpl; try lia; try reflexivity; lra.
Defined.

(** X9: on an empty batch (no rows) the loss is nan: [np.mean] divides
    0 by 0. *)
Theorem log_loss_empty_batch (true_output net_output : ndarray xreal) :
  shape true_output = shape net_output ->
  shape0 net_output = 0%nat ->
  log_loss true_output net_output = Some NaN.
Proof.
  intros Hs H0. rewrite (log_loss_same_shape _ _ Hs), H0. f_equal.
  unfold np_mean, fsum. simpl.
  destruct (Rlt_dec 0 0) as [A|_]; [lra|].
  destruct (Req_dec_T (IZR (Z.of_nat 0)) 0) as [_|A]; [reflexivity|].
  now destruct A.
Qed.

Lemma log_loss_empty_batch_witness :
  log_loss (NDArray 0 2 []) (NDArray 0 2 []) = Some NaN.
Proof.
  exact (log_loss_empty_batch (NDArray 0 2 []) (NDArray 0 2 [])
           eq_refl eq_refl).
Defined.

(** ** Optimizers *)

Lemma spec_gd_spec_gd (lr : R) (w : ndarray R) (f g : nat -> nat -> R) :
  spec_gd lr (spec_gd lr w f) g = spec_gd lr w (fun i j => f i j + g i j).
Proof.
  unfold spec_gd at 1 3. simpl. apply mk_array_ext. intros i j Hi Hj.
  unfold spec_gd. rewrite item_mk_array by assumption. ring.
Qed.

(** X10: two gradient-descent updates of one weight tensor amount to a
    single update with the sum of the two gradients, so their order
    does not matter. *)
Theorem GradientDescent_updates_add (opt : GradientDescent R) (s : store R)
    (l : loc) (w g1 g2 : ndarray R) :
  s !! l = Some w -> shape g1 = shape w -> shape g2 = shape w ->
  exists s1 s2,
    opt_update_weights opt l g1 s = Some ((opt, l), s1) /\
    opt_update_weights opt l g2 s1 = Some ((opt, l), s2) /\
    opt_update_weights opt l
      (mk_array (shape0 w) (shape1 w) (fun i j => item g1 i j + item g2 i j)) s
    = Some ((opt, l), s2) /\
    (exists s1', opt_update_weights opt l g2 s = Some ((opt, l), s1') /\
                 opt_update_weights opt l g1 s1' = Some ((opt, l), s2)).
Proof.
  intros E H1 H2. unfold shape in H1, H2.
  injection H1 as H10 H11. injection H2 as H20 H21.
  eexists _, _.
  split; [apply (GradientDescent_update_same s l w); assumption|].
  split.
  { rewrite (GradientDescent_update_same _ l
               (spec_gd (learning_rate opt) w (item g1)))
      by (try apply lookup_insert_eq; simpl; congruence).
    rewrite insert_insert_eq, spec_gd_spec_gd. reflexivity. }
  split.
  { rewrite (GradientDescent_update_same s l w) by (assumption || reflexivity).
    do 3 f_equal. apply spec_gd_ext. intros i j Hi Hj. now items. }
  eexists.
  split; [apply (GradientDescent_update_same s l w); assumption|].
  rewrite (GradientDescent_update_same _ l
             (spec_gd (learning_rate opt) w (item g2)))
    by (try apply lookup_insert_eq; simpl; congruence).
  rewrite insert_insert_eq, spec_gd_spec_gd. do 3 f_equal.
  apply spec_gd_ext. intros i j Hi Hj. ring.
Qed.

Lemma GradientDescent_updates_add_witness :
  exists s1 s2,
    opt_update_weights GradientDescent_default 1%positive ex_g
      {[ 1%positive := ex_w ]} = Some ((GradientDescent_default, 1%positive), s1) /\
    opt_update_weights GradientDescent_default 1%positive ex_g s1
    = Some ((GradientDescent_default, 1%positive), s2).
Proof.
  destruct (GradientDescent_updates_add GradientDescent_default
              {[ 1%positive := ex_w ]} 1%positive ex_w ex_g ex_g
              (lookup_singleton_eq _ _) eq_refl eq_refl)
    as (s1 & s2 & E1 & E2 & _).
  exists s1, s2. split; assumption.
Defined.

(** X11: with 0 <= gamma <= 1 the running statistic never becomes
    negative: if r is not negative before an update, the new r is an
    array of the gradient's shape with no negative entry, so [np.sqrt]
    stays on its domain in every later update. *)
Theorem RMSProp_r_nonneg (self : RMSProp R) (s : store R) (l : loc)
                         (w g : ndarray R) :
  s !! l = Some w -> shape g = shape w -> r_fits (r self) g ->
  0 <= gamma self <= 1 -> r_nonneg (r self) ->
  exists self' s',
    RMSProp_update_weights self l g s = Some ((self', l), s') /\
    r_fits (r self') g /\ r_nonneg (r self').
Proof.
  intros E Hs Hr Hg Hn. eexists _, _.
  split; [apply RMSProp_update_same; eassumption|].
  split; [reflexivity|].
  simpl. intros i j Hi Hj. rewrite item_mk_array by assumption.
  unfold spec_rms_r.
  assert (H0 : 0 <= pyval_item (r self) i j).
  { destruct (r self) as [x|a]; simpl in *; [exact Hn|].
    unfold shape in Hr. injection Hr as Hr0 Hr1. apply Hn; congruence. }
  assert (Hsq : 0 <= item g i j * item g i j) by nra.
  nra.
Qed.

Lemma RMSProp_r_nonneg_witness :
  exists self' s',
    RMSProp_update_weights RMSProp_default 1%positive ex_g
      {[ 1%positive := ex_w ]} = Some ((self', 1%positive), s') /\
    r_fits (r self') ex_g /\ r_nonneg (r self').
Proof.
  apply (RMSProp_r_nonneg RMSProp_default {[ 1%positive := ex_w ]}
           1%positive ex_w ex_g (lookup_singleton_eq _ _) eq_refl I).
  - simpl. lra.
  - simpl. lra.
Defined.

Lemma Rdiv_le_cross (x y d q : R) :
  0 < d -> 0 < q -> x * q <= y * d -> x / d <= y / q.
Proof.
  intros Hd Hq Hxy.
  replace (x / d) with (x * q * / (d * q)) by (field; lra).
  replace (y / q) with (y * d * / (d * q)) by (field; lra).
  apply Rmult_le_compat_r; [|exact Hxy].
  apply Rlt_le, Rinv_0_lt_compat. nra.
Qed.

Lemma spec_rms_velocity_bound (gamma0 alpha0 eps0 : R) (r0 : pyval R)
                              (g : ndarray R) (i j : nat) :
  0 < gamma0 <= 1 -> 0 <= alpha0 -> 0 < eps0 ->
  0 <= pyval_item r0 i j ->
  Rabs (spec_rms_velocity gamma0 alpha0 eps0 r0 g i j)
  <= alpha0 / sqrt gamma0.
Proof.
  intros Hg Ha He Hr. unfold spec_rms_velocity, spec_rms_r.
  set (x := item g i j). set (r1 := pyval_item r0 i j) in *.
  assert (Hq : 0 < sqrt gamma0) by (apply sqrt_lt_R0; lra).
  assert (Hxx : 0 <= x * x) by nra.
  assert (Hle : sqrt gamma0 * Rabs x
                <= sqrt (gamma0 * (x * x) + (1 - gamma0) * r1)).
  { rewrite <- sqrt_Rsqr_abs. unfold Rsqr.
    rewrite <- sqrt_mult_alt by lra. apply sqrt_le_1_alt. nra. }
  set (d := sqrt (gamma0 * (x * x) + (1 - gamma0) * r1) + eps0) in *.
  pose proof (Rabs_pos x) as Hax.
  assert (Hd : 0 < d) by (unfold d; nra).
  rewrite Rabs_mult, Rabs_pos_eq
    by (apply Rdiv_nonneg; lra).
  replace (alpha0 / d * Rabs x) with (alpha0 * Rabs x / d)
    by (field; lra).
  apply Rdiv_le_cross; try assumption.
  unfold d. nra.
Qed.

(** X12: with 0 < gamma <= 1, alpha >= 0, eps > 0 and r not negative,
    one update of the adaptive optimizer moves no weight by more than
    alpha / sqrt(gamma), however large the gradient is. *)
Theorem RMSProp_step_bound (self : RMSProp R) (s : store R) (l : loc)
                           (w g : ndarray R) :
  s !! l = Some w -> shape g = shape w -> r_fits (r self) g ->
  0 < gamma self <= 1 -> 0 <= alpha self -> 0 < eps self ->
  r_nonneg (r self) ->
  exists self' w',
    RMSProp_update_weights self l g s = Some ((self', l), <[l := w']> s) /\
    forall i j, (i < shape0 w)%nat -> (j < shape1 w)%nat ->
      Rabs (item w' i j - item w i j) <= alpha self / sqrt (gamma self).
Proof.
  intros E Hs Hr Hg Ha He Hn. eexists _, _.
  split; [apply RMSProp_update_same; eassumption|].
  intros i j Hi Hj. unfold spec_gd. rewrite item_mk_array by assumption.
  replace (item w i j
           - 1 * spec_rms_velocity (gamma self) (alpha self) (eps self)
                   (r self) g i j - item w i j)
    with (- spec_rms_velocity (gamma self) (alpha self) (eps self)
              (r self) g i j) by ring.
  rewrite Rabs_Ropp. apply spec_rms_velocity_bound; try assumption.
  unfold shape in Hs. injection Hs as Hs0 Hs1.
  destruct (r self) as [x|a]; simpl in *; [exact Hn|].
  unfold shape in Hr. injection Hr as Hr0 Hr1. apply Hn; congruence.
Qed.

Lemma RMSProp_step_bound_witness :
  exists self' w',
    RMSProp_update_weights RMSProp_default 1%positive ex_g
      {[ 1%positive := ex_w ]}
    = Some ((self', 1%positive), <[1%positive := w']> {[ 1%positive := ex_w ]}) /\
    Rabs (item w' 0 0 - item ex_w 0 0)
    <= alpha RMSProp_default / sqrt (gamma RMSProp_default).
Proof.
  destruct (RMSProp_step_bound RMSProp_default {[ 1%positive := ex_w ]}
              1%positive ex_w ex_g (lookup_singleton_eq _ _) eq_refl I)
    as (self' & w' & E & B); try (simpl; lra).
  exists self', w'. split; [exact E|].
  specialize (B 0%nat 0%nat ltac:(simpl; lia) ltac:(simpl; lia)).
  exact B.
Defined.

Lemma RMSProp_update_incompatible_r {T : Type} `{Float T}
    (self : RMSProp T) (a : ndarray T) (l : loc) (g : ndarray T)
    (s : store T) :
  r self = PyArr a ->
  bdim (shape0 g) (shape0 a) = None \/ bdim (shape1 g) (shape1 a) = None ->
  RMSProp_update_weights self l g s = None.
Proof.
  intros Hr Hb. unfold RMSProp_update_weights, py_bind. rewrite Hr.
  cbn [py_scale py_add_arr]. unfold np_add. rewrite ufunc2_shape.
  cbn [shape0 shape1 ufunc1 np_square mk_array].
  destruct Hb as [-> | ->]; [reflexivity|].
  now destruct (bdim (shape0 g) (shape0 a)).
Qed.

(** X13: an adaptive optimizer that has served one tensor keeps r in
    that tensor's shape, and raises when it is then used for a tensor
    whose shape does not broadcast against it. *)
Theorem RMSProp_shared_raises (self : RMSProp R) (s : store R) (l : loc)
                              (w g : ndarray R) :
  s !! l = Some w -> shape g = shape w -> r_fits (r self) g ->
  exists self' s',
    RMSProp_update_weights self l g s = Some ((self', l), s') /\
    forall l2 g2 s2,
      bdim (shape0 g2) (shape0 g) = None \/
      bdim (shape1 g2) (shape1 g) = None ->
      RMSProp_update_weights self' l2 g2 s2 = None.
Proof.
  intros E Hs Hr. eexists _, _.
  split; [apply RMSProp_update_same; eassumption|].
  intros l2 g2 s2 Hb.
  eapply RMSProp_update_incompatible_r; [reflexivity|exact Hb].
Qed.

Lemma RMSProp_shared_raises_witness :
  exists self' s',
    RMSProp_update_weights RMSProp_default 1%positive ex_g
      {[ 1%positive := ex_w ]} = Some ((self', 1%positive), s') /\
    RMSProp_update_weights self' 2%positive (NDArray 1 3 [[1; 1; 1]])
      {[ 2%positive := NDArray 1 3 [[0; 0; 0]] ]} = None.
Proof.
  destruct (RMSProp_shared_raises RMSProp_default {[ 1%positive := ex_w ]}
              1%positive ex_w ex_g (lookup_singleton_eq _ _) eq_refl I)
    as (self' & s' & E & B).
  exists self', s'. split; [exact E|]. apply B. right. reflexivity.
Defined.

(** ** backprop: what it leaves alone *)

Section BackpropFrame.
Context {T : Type} `{Float T}.

Lemma py_lift_Some {A} (o : option A) (s s' : store T) (x : A) :
  py_lift o s = Some (x, s') -> o = Some x /\ s' = s.
Proof. destruct o; simpl; intros [= <- <-]; auto. Qed.

Lemma py_load_inv (l : loc) (s s' : store T) (a : ndarray T) :
  py_load l s = Some (a, s') -> s !! l = Some a /\ s' = s.
Proof.
  unfold py_load. destruct (s !! l); intros [= <- <-]; auto.
Qed.

Lemma update_weights_inv (l : loc) (g : ndarray T) (lr : T)
                         (s s' : store T) (l' : loc) :
  update_weights l g lr s = Some (l', s') ->
  l' = l /\ exists w w', s !! l = Some w /\ shape w' = shape w /\
                         s' = <[l := w']> s.
Proof.
  unfold update_weights, py_bind. intros E.
  destruct (py_load l s) as [[w s0]|] eqn:El; [|discriminate].
  apply py_load_inv in El as [El ->].
  destruct (py_lift _ s) as [[w' s1]|] eqn:Ei; [|discriminate].
  apply py_lift_Some in Ei as [Ei ->].
  simpl in E. injection E as <- <-. split; [reflexivity|].
  exists w, w'. split; [exact El|]. split; [|reflexivity].
  now apply np_isub_shape in Ei.
Qed.

End BackpropFrame.

Lemma backprop_inv {T : Type} `{Float T} (LR : T) (s s' : store T)
    (ly ly_ lh lW2 lW1 lb2 lb1 lx : loc) (res : loc * loc * loc * loc) :
  backprop LR ly ly_ lh lW2 lW1 lb2 lb1 lx s = Some (res, s') ->
  res = (lW2, lb2, lW1, lb1) /\
  exists (W2' b2' W1' b1' : ndarray T),
    s' = <[lb1 := b1']> (<[lW1 := W1']> (<[lb2 := b2']> (<[lW2 := W2']> s))) /\
    same_shapes s s'.
Proof.
  unfold backprop, py_bind. intros E.
  repeat match type of E with
         | match py_load ?l ?s0 with _ => _ end = _ =>
             let El := fresh "El" in
             destruct (py_load l s0) as [[? ?]|] eqn:El; [|discriminate];
             apply py_load_inv in El as [El ->]
         | match py_lift ?o ?s0 with _ => _ end = _ =>
             let El := fresh "Ep" in
             destruct (py_lift o s0) as [[? ?]|] eqn:El; [|discriminate];
             apply py_lift_Some in El as [El ->]
         end.
  destruct (update_weights lW2 _ LR s) as [[l1 s1]|] eqn:U1; [|discriminate].
  destruct (update_weights lb2 _ LR s1) as [[l2 s2]|] eqn:U2; [|discriminate].
  destruct (update_weights lW1 _ LR s2) as [[l3 s3]|] eqn:U3; [|discriminate].
  destruct (update_weights lb1 _ LR s3) as [[l4 s4]|] eqn:U4; [|discriminate].
  simpl in E. injection E as <- <-.
  apply update_weights_inv in U1 as (-> & w1 & w1' & L1 & S1 & ->).
  apply update_weights_inv in U2 as (-> & w2 & w2' & L2 & S2 & ->).
  apply update_weights_inv in U3 as (-> & w3 & w3' & L3 & S3 & ->).
  apply update_weights_inv in U4 as (-> & w4 & w4' & L4 & S4 & ->).
  split; [reflexivity|]. exists w1', w2', w3', w4'. split; [reflexivity|].
  assert (step : forall (s0 : store T) l w w',
            s0 !! l = Some w -> shape w' = shape w ->
            same_shapes s0 (<[l := w']> s0)).
  { intros s0 l w w' L S l'. destruct (decide (l' = l)) as [->|Hne].
    - rewrite lookup_insert_eq, L. simpl. now f_equal.
    - now rewrite lookup_insert_ne. }
  intros l. rewrite (step _ _ _ _ L4 S4 l), (step _ _ _ _ L3 S3 l),
              (step _ _ _ _ L2 S2 l). apply (step _ _ _ _ L1 S1 l).
Qed.

(** X14: whenever [backprop] returns, it returns the four parameter
    arrays it was given, every other array object (labels, predictions,
    hidden activations, input batch) is untouched, and no array has
    changed its shape. *)
Theorem backprop_frame (LEARNING_RATE : R) (s s' : store R)
    (ly ly_ lh lW2 lW1 lb2 lb1 lx : loc) (res : loc * loc * loc * loc) :
  backprop LEARNING_RATE ly ly_ lh lW2 lW1 lb2 lb1 lx s = Some (res, s') ->
  res = (lW2, lb2, lW1, lb1) /\
  (forall l, l <> lW2 -> l <> lb2 -> l <> lW1 -> l <> lb1 ->
             s' !! l = s !! l) /\
  same_shapes s s'.
Proof.
  intros E. apply backprop_inv in E as (-> & W2' & b2' & W1' & b1' & -> & S).
  split; [reflexivity|]. split; [|exact S].
  intros l N1 N2 N3 N4. now rewrite !lookup_insert_ne by congruence.
Qed.

Lemma backprop_frame_witness :
  exists s',
    backprop 0.1 1%positive 2%positive 3%positive 4%positive 5%positive
      6%positive 7%positive 8%positive (ex_store ex_label)
    = Some ((4%positive, 6%positive, 5%positive, 7%positive), s') /\
    s' !! 1%positive = Some ex_label /\ s' !! 3%positive = Some ex_h.
Proof.
  destruct (backprop 0.1 1%positive 2%positive 3%positive 4%positive
              5%positive 6%positive 7%positive 8%positive (ex_store ex_label))
    as [[res s']|] eqn:E.
  - destruct (backprop_frame _ _ _ _ _ _ _ _ _ _ _ _ E) as (-> & F & _).
    exists s'. split; [reflexivity|].
    split; rewrite F by discriminate; reflexivity.
  - exfalso. eapply backprop_None_iff in E; try reflexivity. discriminate E.
Defined.

Lemma backprop_value (LEARNING_RATE : R) (s : store R)
    (ly ly_ lh lW2 lW1 lb2 lb1 lx : loc)
    (y y_ h W2 W1 b2 b1 x : ndarray R) (N C Hd D : nat) :
  s !! ly = Some y -> s !! ly_ = Some y_ -> s !! lh = Some h ->
  s !! lW2 = Some W2 -> s !! lW1 = Some W1 ->
  s !! lb2 = Some b2 -> s !! lb1 = Some b1 -> s !! lx = Some x ->
  NoDup [lW2; lb2; lW1; lb1] ->
  shape y = (N, C) -> shape y_ = (N, C) -> shape h = (N, Hd) ->
  shape W2 = (Hd, C) -> shape W1 = (D, Hd) ->
  shape b2 = (1%nat, C) -> shape b1 = (1%nat, Hd) -> shape x = (N, D) ->
  backprop LEARNING_RATE ly ly_ lh lW2 lW1 lb2 lb1 lx s =
  Some ((lW2, lb2, lW1, lb1),
        <[lb1 := spec_gd LEARNING_RATE b1 (spec_grad_b1 y y_ h W2)]>
          (<[lW1 := spec_gd LEARNING_RATE W1 (spec_grad_W1 y y_ h W2 x)]>
             (<[lb2 := spec_gd LEARNING_RATE b2 (spec_grad_b2 y y_)]>
                (<[lW2 := spec_gd LEARNING_RATE W2 (spec_grad_W2 y y_ h)]>
                   s)))).
Proof.
  intros Hy Hy_ Hh HW2 HW1 Hb2 Hb1 Hx Hnd Sy Sy_ Sh SW2 SW1 Sb2 Sb1 Sx.
  unfold shape in *.
  injection Sy as Sy0 Sy1. injection Sy_ as Sy_0 Sy_1.
  injection Sh as Sh0 Sh1. injection SW2 as SW20 SW21.
  injection SW1 as SW10 SW11. injection Sb2 as Sb20 Sb21.
  injection Sb1 as Sb10 Sb11. injection Sx as Sx0 Sx1.
  unfold backprop, py_bind.
  rewrite (py_load_Some _ _ _ Hy_), (py_load_Some _ _ _ Hy).
  unfold py_lift at 1, np_subtract.
  rewrite ufunc2_same by congruence.
  set (d := ufunc1 _ (mk_array _ _ _)).
  assert (Ed : d = mk_array N C (spec_d_output y y_)).
  { subst d. unfold ufunc1. simpl. rewrite Sy_0, Sy_1.
    apply mk_array_ext. intros i j Hi Hj. items.
    unfold spec_d_output. now rewrite INR_IZR_INZ. }
  clearbody d. subst d.
  rewrite (py_load_Some _ _ _ Hh).
  unfold py_lift at 1. rewrite np_dot_same by (simpl; congruence).
  set (gW2 := np_transpose (mk_array _ (shape1 h) _)).
  assert (EgW2 : gW2 = mk_array Hd C (spec_grad_W2 y y_ h)).
  { subst gW2. unfold np_transpose. simpl. rewrite Sh1.
    apply mk_array_ext. intros i j Hi Hj. items.
    unfold spec_grad_W2. rewrite sigma_Rsum, Sy0.
    apply Rsum_ext. intros k Hk. now items. }
  clearbody gW2. subst gW2.
  unfold py_lift at 1, np_multiply. rewrite ufunc2_same by reflexivity.
  rewrite (py_load_Some _ _ _ HW2).
  unfold py_lift at 1. rewrite np_dot_same by (simpl; congruence).
  unfold py_lift at 1. rewrite ufunc2_same by (simpl; congruence).
  set (delta_h := mk_array (shape0 (mk_array _ _ _)) _ _).
  assert (Edh : delta_h = mk_array N Hd (spec_delta_hidden y y_ h W2)).
  { subst delta_h. simpl. rewrite Sh0, Sh1.
    apply mk_array_ext. intros i j Hi Hj.
    rewrite (item_mk_array N Hd) by assumption.
    rewrite (item_mk_array N (shape0 W2)) by congruence.
    unfold ufunc1. rewrite item_mk_array by congruence.
    unfold spec_delta_hidden. simpl. f_equal.
    rewrite sigma_Rsum, Sy1. apply Rsum_ext. intros k Hk.
    unfold np_transpose. rewrite SW20. now items. }
  clearbody delta_h. subst delta_h.
  rewrite (py_load_Some _ _ _ Hx).
  unfold py_lift at 1. rewrite np_dot_same by (simpl; congruence).
  set (gW1 := mk_array (shape0 (np_transpose x)) _ _).
  assert (EgW1 : gW1 = mk_array D Hd (spec_grad_W1 y y_ h W2 x)).
  { subst gW1. simpl. rewrite Sx1, Sx0.
    apply mk_array_ext. intros i j Hi Hj.
    unfold spec_grad_W1. rewrite sigma_Rsum, Sy0.
    apply Rsum_ext. intros k Hk. unfold np_transpose. rewrite Sx0, Sx1.
    now items. }
  clearbody gW1. subst gW1.
  set (gb2 := np_sum_axis0_keepdims (mk_array N C _)).
  assert (Egb2 : gb2 = mk_array 1 C (spec_grad_b2 y y_)).
  { subst gb2. unfold np_sum_axis0_keepdims. simpl.
    apply mk_array_ext. intros i j Hi Hj.
    unfold spec_grad_b2. rewrite sigma_Rsum, Sy0.
    apply Rsum_ext. intros k Hk. now items. }
  clearbody gb2. subst gb2.
  set (gb1 := np_sum_axis0_keepdims (mk_array N Hd _)).
  assert (Egb1 : gb1 = mk_array 1 Hd (spec_grad_b1 y y_ h W2)).
  { subst gb1. unfold np_sum_axis0_keepdims. simpl.
    apply mk_array_ext. intros i j Hi Hj.
    unfold spec_grad_b1. rewrite sigma_Rsum, Sy0.
    apply Rsum_ext. intros k Hk. now items. }
  clearbody gb1. subst gb1.
  inversion_clear Hnd as [|? ? N1 Hnd1]. inversion_clear Hnd1 as [|? ? N2 Hnd2].
  inversion_clear Hnd2 as [|? ? N3 _].
  repeat rewrite not_elem_of_cons in N1.
  repeat rewrite not_elem_of_cons in N2.
  repeat rewrite not_elem_of_cons in N3.
  destruct N1 as (? & ? & ? & _), N2 as (? & ? & _), N3 as (? & _).
  rewrite (update_weights_spec_gd _ _ W2) by assumption.
  rewrite (update_weights_spec_gd _ _ b2)
    by (try assumption; rewrite lookup_insert_ne by congruence; exact Hb2).
  rewrite (update_weights_spec_gd _ _ W1)
    by (try assumption; rewrite !lookup_insert_ne by congruence; exact HW1).
  rewrite (update_weights_spec_gd _ _ b1)
    by (try assumption; rewrite !lookup_insert_ne by congruence; exact Hb1).
  reflexivity.
Qed.

Lemma Rsum_0 (n : nat) (f : nat -> R) :
  (forall k, (k < n)%nat -> f k = 0) -> Rsum n f = 0.
Proof.
  induction n as [|n IH]; intros E; simpl; [reflexivity|].
  rewrite IH, E by (intros; try apply E; lia). ring.
Qed.

Lemma Rsum_minus (n : nat) (f g : nat -> R) :
  Rsum n (fun k => f k - g k) = Rsum n f - Rsum n g.
Proof. induction n as [|n IH]; simpl; [ring|]. rewrite IH. ring. Qed.

Lemma Rsum_swap (n m : nat) (f : nat -> nat -> R) :
  Rsum n (fun i => Rsum m (fun j => f i j))
  = Rsum m (fun j => Rsum n (fun i => f i j)).
Proof.
  induction n as [|n IH]; simpl.
  - symmetry. now apply Rsum_0.
  - rewrite IH. clear IH. induction m as [|m IHm]; simpl; [ring|].
    rewrite <- IHm. ring.
Qed.

Lemma spec_gd_id (lr : R) (w : ndarray R) (f : nat -> nat -> R) :
  wf w ->
  (forall i j, (i < shape0 w)%nat -> (j < shape1 w)%nat -> f i j = 0) ->
  spec_gd lr w f = w.
Proof.
  intros Hwf Hf. rewrite <- (mk_array_item w Hwf) at 2. unfold spec_gd.
  apply mk_array_ext. intros i j Hi Hj. rewrite Hf by assumption. ring.
Qed.

(** X15: when the predictions equal the labels entry by entry, all
    gradients are zero and [backprop] leaves every parameter array as
    it was. *)
Theorem backprop_zero_gradient (LEARNING_RATE : R) (s : store R)
    (ly ly_ lh lW2 lW1 lb2 lb1 lx : loc)
    (y y_ h W2 W1 b2 b1 x : ndarray R) (N C Hd D : nat) :
  s !! ly = Some y -> s !! ly_ = Some y_ -> s !! lh = Some h ->
  s !! lW2 = Some W2 -> s !! lW1 = Some W1 ->
  s !! lb2 = Some b2 -> s !! lb1 = Some b1 -> s !! lx = Some x ->
  NoDup [lW2; lb2; lW1; lb1] ->
  shape y = (N, C) -> shape y_ = (N, C) -> shape h = (N, Hd) ->
  shape W2 = (Hd, C) -> shape W1 = (D, Hd) ->
  shape b2 = (1%nat, C) -> shape b1 = (1%nat, Hd) -> shape x = (N, D) ->
  wf W2 -> wf W1 -> wf b2 -> wf b1 ->
  (forall i j, (i < N)%nat -> (j < C)%nat -> item y_ i j = item y i j) ->
  backprop LEARNING_RATE ly ly_ lh lW2 lW1 lb2 lb1 lx s =
  Some ((lW2, lb2, lW1, lb1), s).
Proof.
  intros Hy Hy_ Hh HW2 HW1 Hb2 Hb1 Hx Hnd Sy Sy_ Sh SW2 SW1 Sb2 Sb1 Sx
         WW2 WW1 Wb2 Wb1 Heq.
  rewrite (backprop_value LEARNING_RATE s ly ly_ lh lW2 lW1 lb2 lb1 lx
             y y_ h W2 W1 b2 b1 x N C Hd D) by assumption.
  unfold shape in *.
  injection Sy as Sy0 Sy1. injection SW2 as SW20 SW21.
  injection SW1 as SW10 SW11. injection Sb2 as Sb20 Sb21.
  injection Sb1 as Sb10 Sb11.
  assert (Hd0 : forall i j, (i < N)%nat -> (j < C)%nat ->
                            spec_d_output y y_ i j = 0).
  { intros i j Hi Hj. unfold spec_d_output. rewrite Heq by assumption.
    unfold Rdiv. ring. }
  assert (Hdh : forall i k, (i < N)%nat -> spec_delta_hidden y y_ h W2 i k = 0).
  { intros i k Hi. unfold spec_delta_hidden. rewrite Rsum_0; [ring|].
    intros c Hc. rewrite Hd0 by lia. ring. }
  rewrite (spec_gd_id _ W2), (spec_gd_id _ b2), (spec_gd_id _ W1),
          (spec_gd_id _ b1); try assumption.
  - rewrite (insert_id s lW2 W2 HW2), (insert_id s lb2 b2 Hb2),
            (insert_id s lW1 W1 HW1), (insert_id s lb1 b1 Hb1).
    reflexivity.
  - intros i k Hi Hk. unfold spec_grad_b1. apply Rsum_0.
    intros n Hn. apply Hdh. lia.
  - intros a k Ha Hk. unfold spec_grad_W1. apply Rsum_0.
    intros n Hn. rewrite Hdh by lia. ring.
  - intros i j Hi Hj. unfold spec_grad_b2. apply Rsum_0.
    intros n Hn. apply Hd0; lia.
  - intros i j Hi Hj. unfold spec_grad_W2. apply Rsum_0.
    intros n Hn. rewrite Hd0 by lia. ring.
Qed.

Lemma backprop_zero_gradient_witness :
  backprop 0.1 1%positive 2%positive 3%positive 4%positive 5%positive
    6%positive 7%positive 8%positive (ex_store ex_y_)
  = Some ((4%positive, 6%positive, 5%positive, 7%positive), ex_store ex_y_).
Proof.
  apply (backprop_zero_gradient 0.1 (ex_store ex_y_)
           1%positive 2%positive 3%positive 4%positive 5%positive
           6%positive 7%positive 8%positive
           ex_y_ ex_y_ ex_h ex_W2 ex_W1 ex_b2 ex_b1 ex_x
           1%nat 2%nat 1%nat 1%nat); try reflexivity;
    try (split; [reflexivity | repeat constructor]).
  repeat constructor; intros A; repeat (apply elem_of_cons in A as [A|A]);
    try discriminate; now apply elem_of_nil in A.
Defined.

(** X16: when every row of the predictions and every row of the labels
    sums to the same value (1 for softmax outputs and one-hot labels),
    [backprop] does not change the sum of the output biases. *)
Theorem backprop_bias_sum (LEARNING_RATE : R) (s : store R)
    (ly ly_ lh lW2 lW1 lb2 lb1 lx : loc)
    (y y_ h W2 W1 b2 b1 x : ndarray R) (N C Hd D : nat) :
  s !! ly = Some y -> s !! ly_ = Some y_ -> s !! lh = Some h ->
  s !! lW2 = Some W2 -> s !! lW1 = Some W1 ->
  s !! lb2 = Some b2 -> s !! lb1 = Some b1 -> s !! lx = Some x ->
  NoDup [lW2; lb2; lW1; lb1] ->
  shape y = (N, C) -> shape y_ = (N, C) -> shape h = (N, Hd) ->
  shape W2 = (Hd, C) -> shape W1 = (D, Hd) ->
  shape b2 = (1%nat, C) -> shape b1 = (1%nat, Hd) -> shape x = (N, D) ->
  (forall i, (i < N)%nat -> Rsum C (item y_ i) = Rsum C (item y i)) ->
  exists s' b2',
    backprop LEARNING_RATE ly ly_ lh lW2 lW1 lb2 lb1 lx s =
    Some ((lW2, lb2, lW1, lb1), s') /\
    s' !! lb2 = Some b2' /\
    Rsum C (item b2' 0) = Rsum C (item b2 0).
Proof.
  intros Hy Hy_ Hh HW2 HW1 Hb2 Hb1 Hx Hnd Sy Sy_ Sh SW2 SW1 Sb2 Sb1 Sx Hrows.
  eexists _, _. split.
  { apply (backprop_value LEARNING_RATE s ly ly_ lh lW2 lW1 lb2 lb1 lx
             y y_ h W2 W1 b2 b1 x N C Hd D); assumption. }
  inversion_clear Hnd as [|? ? N1 Hnd1]. inversion_clear Hnd1 as [|? ? N2 _].
  repeat rewrite not_elem_of_cons in N2. destruct N2 as (? & ? & _).
  split.
  { rewrite !lookup_insert_ne by congruence. apply lookup_insert_eq. }
  unfold shape in *.
  injection Sy as Sy0 Sy1. injection Sb2 as Sb20 Sb21.
  rewrite (Rsum_ext C _ (fun j => item b2 0 j
                                  - LEARNING_RATE * spec_grad_b2 y y_ 0 j)).
  2:{ intros j Hj. unfold spec_gd. now rewrite item_mk_array by lia. }
  rewrite Rsum_minus.
  assert (Hz : Rsum C (fun j => LEARNING_RATE * spec_grad_b2 y y_ 0 j) = 0).
  { rewrite (Rsum_ext C _ (fun j => spec_grad_b2 y y_ 0 j * LEARNING_RATE))
      by (intros; ring).
    rewrite Rsum_scal. unfold spec_grad_b2.
    rewrite <- Rsum_swap, Rsum_0; [ring|].
    intros n Hn. unfold spec_d_output. rewrite Rsum_div, Rsum_minus, Sy0 in *.
    rewrite Hrows by lia. unfold Rdiv. ring. }
  rewrite Hz. ring.
Qed.

Lemma backprop_bias_sum_witness :
  exists s' b2',
    backprop 0.1 1%positive 2%positive 3%positive 4%positive 5%positive
      6%positive 7%positive 8%positive (ex_store ex_label)
    = Some ((4%positive, 6%positive, 5%positive, 7%positive), s') /\
    s' !! 6%positive = Some b2' /\
    Rsum 2 (item b2' 0) = Rsum 2 (item ex_b2 0).
Proof.
  apply (backprop_bias_sum 0.1 (ex_store ex_label)
           1%positive 2%positive 3%positive 4%positive 5%positive
           6%positive 7%positive 8%positive
           ex_label ex_y_ ex_h ex_W2 ex_W1 ex_b2 ex_b1 ex_x
           1%nat 2%nat 1%nat 1%nat); try reflexivity.
  - repeat constructor; intros A; repeat (apply elem_of_cons in A as [A|A]);
      try discriminate; now apply elem_of_nil in A.
  - intros i Hi. assert (i = 0%nat) as -> by lia.
    unfold item. simpl. lra.
Defined.

(** ** The loops of [main] *)

Section MainFacts.
Context {T : Type} `{Float T}.





Section Steps.
Variables (LEARNING_RATE : T) (BATCH_SIZE NO_EXAMPLES_TEST : Z).
Variables (D Hd C : nat).



End Steps.

End MainFacts.

Section EpochFacts.
Context {T : Type} `{Float T}.

Lemma eval_loop_bounds (W1 b1 W2 b2 : ndarray T)
    (batches : list (ndarray T * ndarray T)) (c c' : Z) :
  eval_loop W1 b1 W2 b2 batches c = Some c' ->
  (c <= c' <= c + Z.of_nat (length batches))%Z.
Proof.
  revert c. induction batches as [|[x l] bs IH]; intros c E.
  - injection E as <-. simpl. lia.
  - cbn [eval_loop] in E.
    destruct (forward_pass x W1 b1 W2 b2) as [r0|]; [|discriminate].
    cbn [mbind option_bind] in E. apply IH in E.
    unfold count_correct in E. cbn [length].
    destruct (Nat.eqb _ _); lia.
Qed.


Section Epochs.
Variables (LEARNING_RATE : T) (BATCH_SIZE NO_EXAMPLES_TEST : Z).
Variables (batcher_train eval_batcher : Z -> list (ndarray T * ndarray T)).
Variables (D Hd C : nat).



Lemma evaluate_no_examples (v : variables T)
    (batches : list (ndarray T * ndarray T)) (s : store T) :
  evaluate 0 v batches s = None.
Proof.
  unfold evaluate, py_bind.
  repeat match goal with
         | |- match py_load ?l ?s0 with _ => _ end = _ =>
             destruct (py_load l s0) as [[? ?]|]; [|reflexivity]
         | |- match py_lift ?o ?s0 with _ => _ end = _ =>
             destruct (py_lift o s0) as [[? ?]|]; [|reflexivity]
         end.
  reflexivity.
Qed.

Lemma epochs_no_examples (n : nat) (epoch : Z) (v : variables T)
                         (s : store T) :
  epochs LEARNING_RATE BATCH_SIZE 0 batcher_train eval_batcher
    (S n) epoch v s = None.
Proof.
  cbn [epochs]. unfold py_bind.
  destruct (train_loop _ _ _ _ s) as [[v1 s1]|]; [|reflexivity].
  now rewrite evaluate_no_examples.
Qed.

End Epochs.

End EpochFacts.





(** X19: the assertions of [main] let NO_EXAMPLES_TEST = 0 pass, but
    with at least one epoch [main] then always ends in an exception:
    the accuracy divides by NO_EXAMPLES_TEST. *)
Theorem main_no_test_examples (BATCH_SIZE NO_EXAMPLES_TRAIN EPOCHS : Z)
    (LEARNING_RATE : R)
    (batcher_train eval_batcher : Z -> list (ndarray R * ndarray R))
    (W1 b1 W2 b2 : ndarray R) :
  (0 < EPOCHS)%Z ->
  main BATCH_SIZE 0 NO_EXAMPLES_TRAIN EPOCHS LEARNING_RATE
    batcher_train eval_batcher W1 b1 W2 b2 = None /\
  (Z.even BATCH_SIZE = true -> (0 <= NO_EXAMPLES_TRAIN <= 60000)%Z ->
   main_asserts BATCH_SIZE 0 NO_EXAMPLES_TRAIN = true).
Proof.
  intros He. split.
  - unfold main. destruct (main_asserts _ _ _); [|reflexivity].
    unfold py_bind, py_alloc. cbv zeta.
    destruct (Z.to_nat EPOCHS) as [|n] eqn:En; [lia|].
    now rewrite epochs_no_examples.
  - intros Hev Hr. unfold main_asserts.
    rewrite Zmod_even, Hev. simpl.
    apply andb_true_intro. split; apply Z.leb_le; lia.
Qed.

Lemma main_no_test_examples_witness :
  main 2 0 1 1 0.1 (fun _ => [(ex_x, ex_label)]) (fun _ => [])
    ex_W1 ex_b1 ex_W2 ex_b2 = None.
Proof.
  apply (proj1 (main_no_test_examples 2 1 1 0.1
                  (fun _ => [(ex_x, ex_label)]) (fun _ => [])
                  ex_W1 ex_b1 ex_W2 ex_b2 ltac:(lia))).
Defined.

(** X20: the accuracy [main] reports lies between 0 and 1 whenever
    there are no more evaluation batches than NO_EXAMPLES_TEST: each
    batch raises the counter by at most one. *)
Theorem accuracy_range (W1 b1 W2 b2 : ndarray R)
    (batches : list (ndarray R * ndarray R)) (NO_EXAMPLES_TEST : Z) (a : R) :
  accuracy W1 b1 W2 b2 batches NO_EXAMPLES_TEST = Some a ->
  (Z.of_nat (length batches) <= NO_EXAMPLES_TEST)%Z ->
  0 <= a <= 1.
Proof.
  unfold accuracy. intros E Hlen.
  destruct (eval_loop W1 b1 W2 b2 batches 0) as [c|] eqn:Ec; [|discriminate].
  cbn [mbind option_bind] in E.
  destruct (Z.eqb_spec NO_EXAMPLES_TEST 0) as [|Hne]; [discriminate|].
  injection E as <-. apply eval_loop_bounds in Ec. simpl.
  assert (Hpos : 0 < IZR NO_EXAMPLES_TEST) by (apply IZR_lt; lia).
  assert (Hc0 : 0 <= IZR c) by (apply IZR_le; lia).
  assert (Hc1 : IZR c <= IZR NO_EXAMPLES_TEST) by (apply IZR_le; lia).
  split.
  - apply Rdiv_nonneg; lra.
  - apply (Rmult_le_reg_r (IZR NO_EXAMPLES_TEST)); [exact Hpos|].
    unfold Rdiv. rewrite Rmult_assoc, Rinv_l by lra. lra.
Qed.

Lemma accuracy_range_witness :
  exists a, accuracy ex_W1 ex_b1 ex_W2 ex_b2 [(ex_x, ex_label)] 1 = Some a /\
            0 <= a <= 1.
Proof.
  destruct (accuracy ex_W1 ex_b1 ex_W2 ex_b2 [(ex_x, ex_label)] 1)
    as [a|] eqn:E.
  - exists a. split; [reflexivity|].
    apply (accuracy_range ex_W1 ex_b1 ex_W2 ex_b2 [(ex_x, ex_label)] 1 a E).
    simpl. lia.
  - exfalso. unfold accuracy in E. cbn [eval_loop] in E.
    rewrite (forward_pass_value ex_x ex_W1 ex_b1 ex_W2 ex_b2
               eq_refl eq_refl eq_refl eq_refl) in E.
    discriminate E.
Defined.

(** ** The gradient [backprop] starts from *)

Lemma derivable_pt_lim_log_sum_exp (c0 c1 c2 B x : R) :
  0 <= B ->
  derivable_pt_lim (fun z => c0 + c1 * z + c2 * ln (B + exp z)) x
    (c1 + c2 * (exp x / (B + exp x))).
Proof.
  intros HB. pose proof (exp_pos x) as He.
  apply (derivable_pt_lim_ext
           (plus_fct (plus_fct (fct_cte c0) (mult_real_fct c1 id))
              (mult_real_fct c2 (comp ln (plus_fct (fct_cte B) exp)))));
    [intros z; reflexivity|].
  replace (c1 + c2 * (exp x / (B + exp x)))
    with ((0 + c1 * 1) + c2 * (/ (B + exp x) * (0 + exp x)))
    by (field; lra).
  apply derivable_pt_lim_plus.
  - apply derivable_pt_lim_plus; [apply derivable_pt_lim_const|].
    apply derivable_pt_lim_scal, derivable_pt_lim_id.
  - apply derivable_pt_lim_scal, derivable_pt_lim_comp.
    + apply derivable_pt_lim_plus;
        [apply derivable_pt_lim_const | apply derivable_pt_lim_exp].
    + apply derivable_pt_lim_ln. unfold plus_fct, fct_cte. lra.
Qed.

Lemma Rsum_split (n i : nat) (f : nat -> R) (v : R) :
  (i < n)%nat ->
  Rsum n (fun a => if Nat.eqb a i then v else f a)
  = Rsum n (fun a => if Nat.eqb a i then 0 else f a) + v.
Proof.
  induction n as [|n IH]; intros Hi; [lia|]. simpl.
  destruct (Nat.eqb_spec n i) as [->|Hne].
  - rewrite (Rsum_ext i _ (fun a => if Nat.eqb a i then 0 else f a)); [ring|].
    intros k Hk. destruct (Nat.eqb_spec k i); [lia|reflexivity].
  - rewrite IH by lia. ring.
Qed.

Lemma Rsum_at (n i : nat) (f : nat -> R) :
  (i < n)%nat ->
  Rsum n f = Rsum n (fun a => if Nat.eqb a i then 0 else f a) + f i.
Proof.
  intros Hi. rewrite <- Rsum_split by exact Hi. apply Rsum_ext.
  intros k Hk. now destruct (Nat.eqb_spec k i) as [->|].
Qed.

Lemma spec_softmax_ext (C : nat) (row row' : nat -> R) (j : nat) :
  (j < C)%nat -> (forall b, (b < C)%nat -> row b = row' b) ->
  spec_softmax C row j = spec_softmax C row' j.
Proof.
  intros Hj E. unfold spec_softmax. rewrite (E j Hj). f_equal.
  apply Rsum_ext. intros b Hb. now rewrite E.
Qed.

Lemma ln_spec_softmax (C : nat) (row : nat -> R) (j : nat) :
  (j < C)%nat ->
  ln (spec_softmax C row j) = row j - ln (Rsum C (fun b => exp (row b))).
Proof.
  intros Hj. unfold spec_softmax, Rdiv.
  assert (HS : 0 < Rsum C (fun b => exp (row b)))
    by (apply Rsum_exp_pos; lia).
  rewrite ln_mult, ln_Rinv, ln_exp;
    [ring | exact HS | apply exp_pos | now apply Rinv_0_lt_compat].
Qed.

Lemma spec_row_loss_softmax (t P : ndarray R) (a : nat) (row : nat -> R) :
  (forall b, (b < shape1 P)%nat ->
     item P a b = spec_softmax (shape1 P) row b) ->
  spec_row_loss t P a = row_loss_of_logits t (shape1 P) a row.
Proof.
  intros HP. unfold spec_row_loss, row_loss_of_logits.
  set (C := shape1 P) in *.
  set (S := Rsum C (fun b => exp (row b))).
  rewrite (Rsum_ext C _ (fun b => (item t a b * row b
                                   - item t a b * ln S) / INR C)).
  - rewrite Rsum_div, Rsum_minus, Rsum_scal. unfold Rdiv. ring.
  - intros b Hb. rewrite HP, ln_spec_softmax by assumption.
    fold S. unfold Rdiv. ring.
Qed.

Lemma row_loss_of_logits_ext (t : ndarray R) (C a : nat) (row row' : nat -> R) :
  (forall b, (b < C)%nat -> row b = row' b) ->
  row_loss_of_logits t C a row = row_loss_of_logits t C a row'.
Proof.
  intros E. unfold row_loss_of_logits. f_equal. f_equal.
  - f_equal. apply Rsum_ext. intros b Hb. now rewrite E.
  - do 2 f_equal. apply Rsum_ext. intros b Hb. now rewrite E.
Qed.

Lemma loss_of_logits_value (t o : ndarray R) :
  shape t = shape o ->
  loss_of_logits t o =
  Rsum (shape0 o) (fun a => row_loss_of_logits t (shape1 o) a (item o a))
  / INR (shape0 o).
Proof.
  intros Hs. unfold loss_of_logits. rewrite softmax_spec.
  rewrite log_loss_value by exact Hs. unfold spec_loss.
  cbn [shape0 shape1 mk_array]. f_equal.
  apply Rsum_ext. intros a Ha.
  rewrite (spec_row_loss_softmax t _ a (item o a)); [reflexivity|].
  intros b Hb. cbn [shape1 mk_array] in *. now rewrite item_mk_array.
Qed.

Lemma item_set_item (o : ndarray R) (i j a b : nat) (x : R) :
  (a < shape0 o)%nat -> (b < shape1 o)%nat ->
  item (set_item o i j x) a b
  = if Nat.eqb a i && Nat.eqb b j then x else item o a b.
Proof. intros Ha Hb. unfold set_item. now rewrite item_mk_array. Qed.

(** X21: for labels whose row sums to 1, the derivative of
    [log_loss(true_output, softmax(vector))] in the entry (i, j) of
    [vector] is (p[i][j] - true_output[i][j]) / num_classes /
    batch_size, with p = softmax(vector): the array [dLdy_] that
    [backprop] starts from is batch_size times the gradient of the
    loss. *)
Theorem loss_gradient (true_output vector : ndarray R) (i j : nat) :
  shape true_output = shape vector ->
  (i < shape0 vector)%nat -> (j < shape1 vector)%nat ->
  Rsum (shape1 vector) (item true_output i) = 1 ->
  exists p,
    softmax vector = Some p /\
    derivable_pt_lim
      (fun x => loss_of_logits true_output (set_item vector i j x))
      (item vector i j)
      ((item p i j - item true_output i j) / INR (shape1 true_output)
       / INR (shape0 vector)).
Proof.
  intros Hs Hi Hj Hone. eexists. split; [apply softmax_spec|].
  set (t := true_output) in *. set (o := vector) in *.
  set (N := shape0 o) in *. set (C := shape1 o) in *.
  assert (HC : shape1 t = C) by (unfold shape in Hs; now injection Hs).
  rewrite HC, item_mk_array by assumption.
  set (x0 := item o i j).
  set (K := Rsum N (fun a => if Nat.eqb a i then 0
                             else row_loss_of_logits t C a (item o a))).
  set (A := Rsum C (fun b => if Nat.eqb b j then 0
                             else item t i b * item o i b)).
  set (B := Rsum C (fun b => if Nat.eqb b j then 0 else exp (item o i b))).
  assert (HB : 0 <= B).
  { apply Rsum_nonneg. intros b Hb. destruct (Nat.eqb b j); [lra|].
    apply Rlt_le, exp_pos. }
  assert (HN : INR N <> 0) by (apply not_0_INR; lia).
  assert (HCn : INR C <> 0) by (apply not_0_INR; lia).
  assert (HS : Rsum C (fun b => exp (item o i b)) = B + exp x0).
  { now rewrite (Rsum_at C j) by exact Hj. }
  assert (Hloss : forall x,
            loss_of_logits t (set_item o i j x)
            = (K + (- (A + item t i j * x) + 1 * ln (B + exp x)) / INR C)
              / INR N).
  { intros x. rewrite loss_of_logits_value by exact Hs.
    cbn [shape0 shape1 set_item mk_array]. fold N C. f_equal.
    set (rx := fun b => if Nat.eqb b j then x else item o i b).
    rewrite (Rsum_ext N _
               (fun a => if Nat.eqb a i then row_loss_of_logits t C i rx
                         else row_loss_of_logits t C a (item o a))).
    - rewrite Rsum_split by exact Hi. fold K. f_equal.
      unfold row_loss_of_logits. rewrite Hone. f_equal. f_equal.
      + f_equal.
        rewrite (Rsum_ext C _ (fun b => if Nat.eqb b j then item t i j * x
                                        else item t i b * item o i b)).
        * now rewrite Rsum_split by exact Hj.
        * intros b Hb. unfold rx.
          now destruct (Nat.eqb_spec b j) as [->|].
      + do 2 f_equal.
        rewrite (Rsum_ext C _ (fun b => if Nat.eqb b j then exp x
                                        else exp (item o i b))).
        * now rewrite Rsum_split by exact Hj.
        * intros b Hb. unfold rx. now destruct (Nat.eqb b j).
    - intros a Ha. destruct (Nat.eqb_spec a i) as [->|Hne];
        apply row_loss_of_logits_ext; intros b Hb;
        fold (set_item o i j x); rewrite item_set_item by assumption.
      + now rewrite Nat.eqb_refl.
      + apply Nat.eqb_neq in Hne. now rewrite Hne. }
  apply (derivable_pt_lim_ext
           (fun z => (K - A / INR C) / INR N
                     + (- item t i j / INR C / INR N) * z
                     + (1 / INR C / INR N) * ln (B + exp z))).
  { intros z. rewrite Hloss. field. split; assumption. }
  replace ((spec_softmax C (item o i) j - item t i j) / INR C / INR N)
    with (- item t i j / INR C / INR N
          + 1 / INR C / INR N * (exp x0 / (B + exp x0))).
  - now apply derivable_pt_lim_log_sum_exp.
  - unfold spec_softmax. rewrite HS. fold x0.
    pose proof (exp_pos x0). field. repeat split; lra.
Qed.

Lemma loss_gradient_witness :
  exists p,
    softmax ex_w = Some p /\
    derivable_pt_lim (fun x => loss_of_logits ex_label (set_item ex_w 0 1 x))
      0 ((item p 0 1 - 0) / INR 2 / INR 1).
Proof.
  destruct (loss_gradient ex_label ex_w 0 1 eq_refl) as (p & E & Dp).
  - simpl. lia.
  - simpl. lia.
  - unfold item. simpl. lra.
  - exists p. split; [exact E|exact Dp].
Defined.

Lemma derivable_pt_lim_spec_sigmoid (x : R) :
  derivable_pt_lim spec_sigmoid x (spec_sigmoid x * (1 - spec_sigmoid x)).
Proof.
  pose proof (exp_pos (- x)) as He.
  apply (derivable_pt_lim_ext
           (div_fct (fct_cte 1)
              (plus_fct (fct_cte 1) (comp exp (opp_fct id)))));
    [intros z; reflexivity|].
  replace (spec_sigmoid x * (1 - spec_sigmoid x))
    with ((0 * (1 + exp (- x)) - (0 + exp (- x) * - 1) * 1)
          / Rsqr (1 + exp (- x)))
    by (unfold spec_sigmoid, Rsqr; field; lra).
  apply (derivable_pt_lim_div (fct_cte 1)
           (plus_fct (fct_cte 1) (comp exp (opp_fct id)))).
  - apply derivable_pt_lim_const.
  - apply derivable_pt_lim_plus; [apply derivable_pt_lim_const|].
    apply derivable_pt_lim_comp.
    + apply derivable_pt_lim_opp, derivable_pt_lim_id.
    + apply derivable_pt_lim_exp.
  - unfold plus_fct, fct_cte, comp, opp_fct, id. lra.
Qed.

(** X22: the derivative of an entry of [sigmoid(vector)] in the same
    entry of [vector] is h * (1 - h) with h the value of the sigmoid:
    the factor [hidden_output_activations * (1 -
    hidden_output_activations)] in [delta_h] of [backprop]. *)
Theorem sigmoid_derivative (vector : ndarray R) (i j : nat) :
  (i < shape0 vector)%nat -> (j < shape1 vector)%nat ->
  derivable_pt_lim (fun x => item (sigmoid (set_item vector i j x)) i j)
    (item vector i j)
    (item (sigmoid vector) i j * (1 - item (sigmoid vector) i j)).
Proof.
  intros Hi Hj. rewrite item_sigmoid by assumption.
  apply (derivable_pt_lim_ext spec_sigmoid);
    [|apply derivable_pt_lim_spec_sigmoid].
  intros z. rewrite item_sigmoid by assumption.
  rewrite item_set_item by assumption. now rewrite !Nat.eqb_refl.
Qed.

Lemma sigmoid_derivative_witness :
  derivable_pt_lim (fun x => item (sigmoid (set_item ex_x 0 0 x)) 0 0)
    (item ex_x 0 0)
    (item (sigmoid ex_x) 0 0 * (1 - item (sigmoid ex_x) 0 0)).
Proof. apply (sigmoid_derivative ex_x 0 0); simpl; lia. Defined.

(** ** The gradients of the output layer *)

Lemma derivable_pt_lim_log_sum_exp_affine (c0 c1 c2 B u v x : R) :
  0 <= B ->
  derivable_pt_lim (fun z => c0 + c1 * z + c2 * ln (B + exp (u + v * z))) x
    (c1 + c2 * (v * (exp (u + v * x) / (B + exp (u + v * x))))).
Proof.
  intros HB. pose proof (exp_pos (u + v * x)) as He.
  apply (derivable_pt_lim_ext
           (plus_fct (plus_fct (fct_cte c0) (mult_real_fct c1 id))
              (mult_real_fct c2
                 (comp ln (plus_fct (fct_cte B)
                             (comp exp (plus_fct (fct_cte u)
                                          (mult_real_fct v id))))))));
    [intros z; reflexivity|].
  replace (c1 + c2 * (v * (exp (u + v * x) / (B + exp (u + v * x)))))
    with ((0 + c1 * 1)
          + c2 * (/ (B + exp (u + v * x))
                  * (0 + exp (u + v * x) * (0 + v * 1))))
    by (field; lra).
  apply derivable_pt_lim_plus.
  - apply derivable_pt_lim_plus; [apply derivable_pt_lim_const|].
    apply derivable_pt_lim_scal, derivable_pt_lim_id.
  - apply derivable_pt_lim_scal, derivable_pt_lim_comp.
    + apply derivable_pt_lim_plus; [apply derivable_pt_lim_const|].
      apply derivable_pt_lim_comp.
      * apply derivable_pt_lim_plus; [apply derivable_pt_lim_const|].
        apply derivable_pt_lim_scal, derivable_pt_lim_id.
      * apply derivable_pt_lim_exp.
    + apply derivable_pt_lim_ln.
      unfold plus_fct, fct_cte, comp, mult_real_fct, id.
      lra.
Qed.

Lemma derivable_pt_lim_Rsum (n : nat) (f : nat -> R -> R) (l : nat -> R)
                            (x : R) :
  (forall a, (a < n)%nat -> derivable_pt_lim (f a) x (l a)) ->
  derivable_pt_lim (fun z => Rsum n (fun a => f a z)) x (Rsum n l).
Proof.
  induction n as [|n IH]; intros Hf; simpl.
  - apply (derivable_pt_lim_ext (fct_cte 0)); [reflexivity|].
    apply derivable_pt_lim_const.
  - apply (derivable_pt_lim_ext
             (plus_fct (fun z => Rsum n (fun a => f a z)) (f n)));
      [reflexivity|].
    apply derivable_pt_lim_plus; [apply IH; intros; apply Hf; lia|].
    apply Hf. lia.
Qed.

(** The mean row loss when column [c] of the pre-activations of row [a]
    is [u a + v a * z] and the other columns do not depend on [z]. *)
Lemma mean_row_loss_derivative (t : ndarray R) (N C c : nat)
    (rows : R -> nat -> nat -> R) (u v : nat -> R) (base : nat -> nat -> R)
    (x : R) :
  (forall z a b, (a < N)%nat -> (b < C)%nat ->
     rows z a b = if Nat.eqb b c then u a + v a * z else base a b) ->
  (c < C)%nat ->
  (forall a, (a < N)%nat -> Rsum C (item t a) = 1) ->
  derivable_pt_lim
    (fun z => Rsum N (fun a => row_loss_of_logits t C a (rows z a)) / INR N)
    x
    (Rsum N (fun a => v a * ((spec_softmax C (rows x a) c - item t a c)
                             / INR C)) / INR N).
Proof.
  intros Hrows Hc Hone.
  assert (HCn : INR C <> 0) by (apply not_0_INR; lia).
  apply (derivable_pt_lim_ext
           (mult_real_fct (/ INR N)
              (fun z => Rsum N (fun a => row_loss_of_logits t C a (rows z a)))));
    [intros z; unfold mult_real_fct, Rdiv; ring|].
  replace (Rsum N (fun a => v a * ((spec_softmax C (rows x a) c - item t a c)
                                   / INR C)) / INR N)
    with (/ INR N * Rsum N (fun a => v a * ((spec_softmax C (rows x a) c
                                             - item t a c) / INR C)))
    by (unfold Rdiv; ring).
  apply derivable_pt_lim_scal.
  apply (derivable_pt_lim_Rsum N
           (fun a z => row_loss_of_logits t C a (rows z a))).
  intros a Ha.
  set (A := Rsum C (fun b => if Nat.eqb b c then 0
                             else item t a b * base a b)).
  set (B := Rsum C (fun b => if Nat.eqb b c then 0 else exp (base a b))).
  assert (HB : 0 <= B).
  { apply Rsum_nonneg. intros b Hb. destruct (Nat.eqb b c); [lra|].
    apply Rlt_le, exp_pos. }
  assert (Hsum : forall z, Rsum C (fun b => exp (rows z a b))
                           = B + exp (u a + v a * z)).
  { intros z.
    rewrite (Rsum_ext C _ (fun b => if Nat.eqb b c then exp (u a + v a * z)
                                    else exp (base a b))).
    - now rewrite Rsum_split by exact Hc.
    - intros b Hb. rewrite Hrows by assumption. now destruct (Nat.eqb b c). }
  apply (derivable_pt_lim_ext
           (fun z => - (A + item t a c * u a) / INR C
                     + (- item t a c * v a / INR C) * z
                     + (1 / INR C) * ln (B + exp (u a + v a * z)))).
  - intros z. unfold row_loss_of_logits.
    rewrite (Hone a Ha), Hsum.
    rewrite (Rsum_ext C (fun b => item t a b * rows z a b)
               (fun b => if Nat.eqb b c
                         then item t a c * (u a + v a * z)
                         else item t a b * base a b)).
    + rewrite Rsum_split by exact Hc. fold A. field. exact HCn.
    + intros b Hb. rewrite Hrows by assumption.
      now destruct (Nat.eqb_spec b c) as [->|].
  - replace (v a * ((spec_softmax C (rows x a) c - item t a c) / INR C))
      with (- item t a c * v a / INR C
            + 1 / INR C * (v a * (exp (u a + v a * x)
                                  / (B + exp (u a + v a * x))))).
    + now apply derivable_pt_lim_log_sum_exp_affine.
    + unfold spec_softmax. rewrite Hsum, (Hrows x a c Ha Hc), Nat.eqb_refl.
      pose proof (exp_pos (u a + v a * x)). field. split; [lra|exact HCn].
Qed.

Lemma network_loss_value (input W1 b1 W2 b2 label : ndarray R) :
  shape1 input = shape0 W1 ->
  shape b1 = (1%nat, shape1 W1) ->
  shape1 W1 = shape0 W2 ->
  shape b2 = (1%nat, shape1 W2) ->
  shape label = (shape0 input, shape1 W2) ->
  network_loss input W1 b1 W2 b2 label =
  Rsum (shape0 input)
    (fun a => row_loss_of_logits label (shape1 W2) a
                (spec_output_pre input W1 b1 W2 b2 a))
  / INR (shape0 input).
Proof.
  intros HxW Hb1 HWW Hb2 Hl. unfold network_loss.
  rewrite forward_pass_value by assumption.
  rewrite log_loss_value by exact Hl. unfold spec_loss.
  cbn [shape0 shape1 mk_array]. f_equal.
  apply Rsum_ext. intros a Ha.
  rewrite (spec_row_loss_softmax label _ a
             (spec_output_pre input W1 b1 W2 b2 a)); [reflexivity|].
  intros b Hb. cbn [shape1 mk_array] in *. now rewrite item_mk_array.
Qed.

Lemma set_item_same (a : ndarray R) (i j i' j' : nat) :
  (i' < shape0 a)%nat -> (j' < shape1 a)%nat ->
  item (set_item a i j (item a i j)) i' j' = item a i' j'.
Proof.
  intros Hi Hj. rewrite item_set_item by assumption.
  destruct (Nat.eqb_spec i' i) as [->|]; [|reflexivity].
  now destruct (Nat.eqb_spec j' j) as [->|].
Qed.

(** The derivative of the network loss in one output bias. *)
Lemma network_loss_bias_derivative (input W1 b1 W2 b2 label : ndarray R)
                                   (c : nat) :
  shape1 input = shape0 W1 ->
  shape b1 = (1%nat, shape1 W1) ->
  shape1 W1 = shape0 W2 ->
  shape b2 = (1%nat, shape1 W2) ->
  shape label = (shape0 input, shape1 W2) ->
  (c < shape1 W2)%nat ->
  (forall a, (a < shape0 input)%nat -> Rsum (shape1 W2) (item label a) = 1) ->
  derivable_pt_lim
    (fun z => network_loss input W1 b1 W2 (set_item b2 0 c z) label)
    (item b2 0 c)
    (Rsum (shape0 input)
       (fun a => (spec_predictions input W1 b1 W2 b2 a c - item label a c)
                 / INR (shape1 W2))
     / INR (shape0 input)).
Proof.
  intros HxW Hb1 HWW Hb2 Hl Hc Hone.
  assert (Hb2' := Hb2). unfold shape in Hb2'. injection Hb2' as Hb20 Hb21.
  set (N := shape0 input) in *. set (C := shape1 W2) in *.
  set (rows := fun z a => spec_output_pre input W1 b1 W2 (set_item b2 0 c z) a).
  set (u := fun a => Rsum (shape0 W2)
                       (fun k => spec_hidden input W1 b1 a k * item W2 k c)).
  assert (Hrows : forall z a b, (a < N)%nat -> (b < C)%nat ->
            rows z a b = if Nat.eqb b c then u a + 1 * z
                         else spec_output_pre input W1 b1 W2 b2 a b).
  { intros z a b Ha Hb. unfold rows, spec_output_pre.
    rewrite item_set_item by lia. cbn [Nat.eqb andb].
    destruct (Nat.eqb_spec b c) as [->|]; [unfold u; ring|reflexivity]. }
  apply (derivable_pt_lim_ext
           (fun z => Rsum N (fun a => row_loss_of_logits label C a (rows z a))
                     / INR N)).
  { intros z. symmetry. apply network_loss_value; assumption. }
  rewrite (Rsum_ext N _
             (fun a => 1 * ((spec_softmax C (rows (item b2 0 c) a) c
                             - item label a c) / INR C))).
  - apply (mean_row_loss_derivative label N C c rows u (fun _ => 1)
             (spec_output_pre input W1 b1 W2 b2)); assumption.
  - intros a Ha. rewrite Rmult_1_l. do 2 f_equal.
    unfold spec_predictions. fold C. apply spec_softmax_ext; [exact Hc|].
    intros b Hb. unfold rows, spec_output_pre.
    now rewrite set_item_same by lia.
Qed.

(** X23: [backprop] moves each output bias against the derivative of
    the network loss in that bias, by LEARNING_RATE * batch_size times
    that derivative (labels with rows summing to 1, predictions and
    hidden activations from the forward pass). *)
Theorem backprop_output_bias_gradient (LEARNING_RATE : R) (s : store R)
    (ly ly_ lh lW2 lW1 lb2 lb1 lx : loc)
    (y y_ h W2 W1 b2 b1 x : ndarray R) (N C Hd D : nat) :
  s !! ly = Some y -> s !! ly_ = Some y_ -> s !! lh = Some h ->
  s !! lW2 = Some W2 -> s !! lW1 = Some W1 ->
  s !! lb2 = Some b2 -> s !! lb1 = Some b1 -> s !! lx = Some x ->
  NoDup [lW2; lb2; lW1; lb1] ->
  shape y = (N, C) -> shape W2 = (Hd, C) -> shape W1 = (D, Hd) ->
  shape b2 = (1%nat, C) -> shape b1 = (1%nat, Hd) -> shape x = (N, D) ->
  forward_pass x W1 b1 W2 b2 = Some (y_, h) ->
  (forall a, (a < N)%nat -> Rsum C (item y a) = 1) ->
  (0 < N)%nat ->
  exists s' b2',
    backprop LEARNING_RATE ly ly_ lh lW2 lW1 lb2 lb1 lx s =
    Some ((lW2, lb2, lW1, lb1), s') /\
    s' !! lb2 = Some b2' /\
    forall c, (c < C)%nat ->
      exists g,
        derivable_pt_lim
          (fun z => network_loss x W1 b1 W2 (set_item b2 0 c z) y)
          (item b2 0 c) g /\
        item b2' 0 c = item b2 0 c - LEARNING_RATE * (INR N * g).
Proof.
  intros Hy Hy_ Hh HW2 HW1 Hb2 Hb1 Hx Hnd Sy SW2 SW1 Sb2 Sb1 Sx Hf Hone HN.
  assert (Sy' := Sy). assert (SW2' := SW2). assert (SW1' := SW1).
  assert (Sb2' := Sb2). assert (Sb1' := Sb1). assert (Sx' := Sx).
  unfold shape in Sy', SW2', SW1', Sb2', Sb1', Sx'.
  injection Sy' as Sy0 Sy1. injection SW2' as SW20 SW21.
  injection SW1' as SW10 SW11. injection Sb2' as Sb20 Sb21.
  injection Sb1' as Sb10 Sb11. injection Sx' as Sx0 Sx1.
  rewrite forward_pass_value in Hf
    by (rewrite ?Sb1, ?Sb2; congruence).
  injection Hf as Ey_ Eh.
  eexists _, _. split.
  { apply (backprop_value LEARNING_RATE s ly ly_ lh lW2 lW1 lb2 lb1 lx
             y y_ h W2 W1 b2 b1 x N C Hd D); try assumption;
      rewrite <- ?Ey_, <- ?Eh; unfold shape; cbn [shape0 shape1 mk_array];
      congruence. }
  inversion_clear Hnd as [|? ? N1 Hnd1]. inversion_clear Hnd1 as [|? ? N2 _].
  repeat rewrite not_elem_of_cons in N2. destruct N2 as (? & ? & _).
  split.
  { rewrite !lookup_insert_ne by congruence. apply lookup_insert_eq. }
  intros c Hc. eexists. split.
  { apply network_loss_bias_derivative;
      rewrite ?Sb1, ?Sb2, ?Sy; try congruence.
    intros a Ha. rewrite SW21. apply Hone. lia. }
  unfold spec_gd. rewrite item_mk_array by lia. f_equal. f_equal.
  unfold spec_grad_b2, spec_d_output. rewrite Sy0, Sy1, Sx0, SW21.
  assert (HNn : INR N <> 0) by (apply not_0_INR; lia).
  rewrite (Rsum_ext N _
             (fun a => (spec_predictions x W1 b1 W2 b2 a c - item y a c)
                       / INR C)).
  - field. exact HNn.
  - intros a Ha. rewrite <- Ey_. now rewrite item_mk_array by lia.
Qed.

(** The derivative of the network loss in one weight of the output
    layer. *)
Lemma network_loss_weight_derivative (input W1 b1 W2 b2 label : ndarray R)
                                     (k c : nat) :
  shape1 input = shape0 W1 ->
  shape b1 = (1%nat, shape1 W1) ->
  shape1 W1 = shape0 W2 ->
  shape b2 = (1%nat, shape1 W2) ->
  shape label = (shape0 input, shape1 W2) ->
  (k < shape0 W2)%nat -> (c < shape1 W2)%nat ->
  (forall a, (a < shape0 input)%nat -> Rsum (shape1 W2) (item label a) = 1) ->
  derivable_pt_lim
    (fun z => network_loss input W1 b1 (set_item W2 k c z) b2 label)
    (item W2 k c)
    (Rsum (shape0 input)
       (fun a => spec_hidden input W1 b1 a k
                 * ((spec_predictions input W1 b1 W2 b2 a c - item label a c)
                    / INR (shape1 W2)))
     / INR (shape0 input)).
Proof.
  intros HxW Hb1 HWW Hb2 Hl Hk Hc Hone.
  set (N := shape0 input) in *. set (C := shape1 W2) in *.
  set (Hd := shape0 W2) in *.
  set (hid := spec_hidden input W1 b1).
  set (rows := fun z a => spec_output_pre input W1 b1 (set_item W2 k c z) b2 a).
  set (u := fun a => Rsum Hd (fun k' => if Nat.eqb k' k then 0
                                        else hid a k' * item W2 k' c)
                     + item b2 0 c).
  assert (Hrows : forall z a b, (a < N)%nat -> (b < C)%nat ->
            rows z a b = if Nat.eqb b c then u a + hid a k * z
                         else spec_output_pre input W1 b1 W2 b2 a b).
  { intros z a b Ha Hb. unfold rows, spec_output_pre.
    cbn [shape0 shape1 set_item mk_array]. fold Hd hid.
    fold (set_item W2 k c z).
    destruct (Nat.eqb_spec b c) as [->|Hne].
    - rewrite (Rsum_ext Hd _ (fun k' => if Nat.eqb k' k then hid a k * z
                                        else hid a k' * item W2 k' c)).
      + rewrite Rsum_split by exact Hk. unfold u. ring.
      + intros k' Hk'. rewrite item_set_item by assumption.
        rewrite Nat.eqb_refl, andb_true_r.
        now destruct (Nat.eqb_spec k' k) as [->|].
    - f_equal. apply Rsum_ext. intros k' Hk'.
      rewrite item_set_item by assumption.
      apply Nat.eqb_neq in Hne. now rewrite Hne, andb_false_r. }
  apply (derivable_pt_lim_ext
           (fun z => Rsum N (fun a => row_loss_of_logits label C a (rows z a))
                     / INR N)).
  { intros z. symmetry.
    apply (network_loss_value input W1 b1 (set_item W2 k c z) b2 label);
      assumption. }
  rewrite (Rsum_ext N _
             (fun a => hid a k * ((spec_softmax C (rows (item W2 k c) a) c
                                   - item label a c) / INR C))).
  - apply (mean_row_loss_derivative label N C c rows u (fun a => hid a k)
             (spec_output_pre input W1 b1 W2 b2)); assumption.
  - intros a Ha. do 3 f_equal.
    unfold spec_predictions. fold C. apply spec_softmax_ext; [exact Hc|].
    intros b Hb. unfold rows, spec_output_pre.
    cbn [shape0 shape1 set_item mk_array]. fold Hd hid.
    fold (set_item W2 k c (item W2 k c)). f_equal.
    apply Rsum_ext. intros k' Hk'. now rewrite set_item_same.
Qed.

(** X24: [backprop] moves each weight between the hidden and the output
    layer against the derivative of the network loss in that weight, by
    LEARNING_RATE * batch_size times that derivative. *)
Theorem backprop_output_weight_gradient (LEARNING_RATE : R) (s : store R)
    (ly ly_ lh lW2 lW1 lb2 lb1 lx : loc)
    (y y_ h W2 W1 b2 b1 x : ndarray R) (N C Hd D : nat) :
  s !! ly = Some y -> s !! ly_ = Some y_ -> s !! lh = Some h ->
  s !! lW2 = Some W2 -> s !! lW1 = Some W1 ->
  s !! lb2 = Some b2 -> s !! lb1 = Some b1 -> s !! lx = Some x ->
  NoDup [lW2; lb2; lW1; lb1] ->
  shape y = (N, C) -> shape W2 = (Hd, C) -> shape W1 = (D, Hd) ->
  shape b2 = (1%nat, C) -> shape b1 = (1%nat, Hd) -> shape x = (N, D) ->
  forward_pass x W1 b1 W2 b2 = Some (y_, h) ->
  (forall a, (a < N)%nat -> Rsum C (item y a) = 1) ->
  (0 < N)%nat ->
  exists s' W2',
    backprop LEARNING_RATE ly ly_ lh lW2 lW1 lb2 lb1 lx s =
    Some ((lW2, lb2, lW1, lb1), s') /\
    s' !! lW2 = Some W2' /\
    forall k c, (k < Hd)%nat -> (c < C)%nat ->
      exists g,
        derivable_pt_lim
          (fun z => network_loss x W1 b1 (set_item W2 k c z) b2 y)
          (item W2 k c) g /\
        item W2' k c = item W2 k c - LEARNING_RATE * (INR N * g).
Proof.
  intros Hy Hy_ Hh HW2 HW1 Hb2 Hb1 Hx Hnd Sy SW2 SW1 Sb2 Sb1 Sx Hf Hone HN.
  assert (Sy' := Sy). assert (SW2' := SW2). assert (SW1' := SW1).
  assert (Sb2' := Sb2). assert (Sb1' := Sb1). assert (Sx' := Sx).
  unfold shape in Sy', SW2', SW1', Sb2', Sb1', Sx'.
  injection Sy' as Sy0 Sy1. injection SW2' as SW20 SW21.
  injection SW1' as SW10 SW11. injection Sb2' as Sb20 Sb21.
  injection Sb1' as Sb10 Sb11. injection Sx' as Sx0 Sx1.
  rewrite forward_pass_value in Hf
    by (rewrite ?Sb1, ?Sb2; congruence).
  injection Hf as Ey_ Eh.
  eexists _, _. split.
  { apply (backprop_value LEARNING_RATE s ly ly_ lh lW2 lW1 lb2 lb1 lx
             y y_ h W2 W1 b2 b1 x N C Hd D); try assumption;
      rewrite <- ?Ey_, <- ?Eh; unfold shape; cbn [shape0 shape1 mk_array];
      congruence. }
  inversion_clear Hnd as [|? ? N1 Hnd1].
  repeat rewrite not_elem_of_cons in N1. destruct N1 as (? & ? & ? & _).
  split.
  { rewrite !lookup_insert_ne by congruence. apply lookup_insert_eq. }
  intros k c Hk Hc. eexists. split.
  { apply network_loss_weight_derivative;
      rewrite ?Sb1, ?Sb2, ?Sy, ?SW20, ?SW21; try congruence; try assumption.
    intros a Ha. apply Hone. lia. }
  unfold spec_gd. rewrite item_mk_array by lia. f_equal. f_equal.
  unfold spec_grad_W2, spec_d_output. rewrite Sy0, Sy1, Sx0, SW21.
  assert (HNn : INR N <> 0) by (apply not_0_INR; lia).
  rewrite (Rsum_ext N _
             (fun a => spec_hidden x W1 b1 a k
                       * ((spec_predictions x W1 b1 W2 b2 a c - item y a c)
                          / INR C))).
  - field. exact HNn.
  - intros a Ha. rewrite <- Ey_, <- Eh.
    rewrite !item_mk_array by lia. ring.
Qed.

Lemma backprop_output_bias_gradient_witness :
  exists s' b2',
    backprop 0.1 1%positive 2%positive 3%positive 4%positive 5%positive
      6%positive 7%positive 8%positive ex_forward_store
    = Some ((4%positive, 6%positive, 5%positive, 7%positive), s') /\
    s' !! 6%positive = Some b2' /\
    forall c, (c < 2)%nat ->
      exists g,
        derivable_pt_lim
          (fun z => network_loss ex_x ex_W1 ex_b1 ex_W2
                      (set_item ex_b2 0 c z) ex_label)
          (item ex_b2 0 c) g /\
        item b2' 0 c = item ex_b2 0 c - 0.1 * (INR 1 * g).
Proof.
  apply (backprop_output_bias_gradient 0.1 ex_forward_store
           1%positive 2%positive 3%positive 4%positive 5%positive
           6%positive 7%positive 8%positive
           ex_label
           (mk_array 1 2 (spec_predictions ex_x ex_W1 ex_b1 ex_W2 ex_b2))
           (mk_array 1 1 (spec_hidden ex_x ex_W1 ex_b1))
           ex_W2 ex_W1 ex_b2 ex_b1 ex_x
           1%nat 2%nat 1%nat 1%nat); try reflexivity.
  - repeat constructor; intros A; repeat (apply elem_of_cons in A as [A|A]);
      try discriminate; now apply elem_of_nil in A.
  - intros a Ha. assert (a = 0%nat) as -> by lia.
    unfold Rsum, item. simpl. lra.
  - lia.
Defined.

Lemma backprop_output_weight_gradient_witness :
  exists s' W2',
    backprop 0.1 1%positive 2%positive 3%positive 4%positive 5%positive
      6%positive 7%positive 8%positive ex_forward_store
    = Some ((4%positive, 6%positive, 5%positive, 7%positive), s') /\
    s' !! 4%positive = Some W2' /\
    forall k c, (k < 1)%nat -> (c < 2)%nat ->
      exists g,
        derivable_pt_lim
          (fun z => network_loss ex_x ex_W1 ex_b1 (set_item ex_W2 k c z)
                      ex_b2 ex_label)
          (item ex_W2 k c) g /\
        item W2' k c = item ex_W2 k c - 0.1 * (INR 1 * g).
Proof.
  apply (backprop_output_weight_gradient 0.1 ex_forward_store
           1%positive 2%positive 3%positive 4%positive 5%positive
           6%positive 7%positive 8%positive
           ex_label
           (mk_array 1 2 (spec_predictions ex_x ex_W1 ex_b1 ex_W2 ex_b2))
           (mk_array 1 1 (spec_hidden ex_x ex_W1 ex_b1))
           ex_W2 ex_W1 ex_b2 ex_b1 ex_x
           1%nat 2%nat 1%nat 1%nat); try reflexivity.
  - repeat constructor; intros A; repeat (apply elem_of_cons in A as [A|A]);
      try discriminate; now apply elem_of_nil in A.
  - intros a Ha. assert (a = 0%nat) as -> by lia.
    unfold Rsum, item. simpl. lra.
  - lia.
Defined.

(** ** The gradients of the hidden layer *)

(** The derivative of the loss of one row when every pre-activation of
    the output layer depends on the parameter. *)
Lemma row_loss_of_logits_derivative (t : ndarray R) (C a : nat)
    (f : nat -> R -> R) (l : nat -> R) (x : R) :
  (0 < C)%nat ->
  Rsum C (item t a) = 1 ->
  (forall b, (b < C)%nat -> derivable_pt_lim (f b) x (l b)) ->
  derivable_pt_lim (fun z => row_loss_of_logits t C a (fun b => f b z)) x
    (Rsum C (fun b => (spec_softmax C (fun b' => f b' x) b - item t a b)
                      / INR C * l b)).
Proof.
  intros HC Hone Hf.
  assert (HCn : INR C <> 0) by (apply not_0_INR; lia).
  set (S := Rsum C (fun b => exp (f b x))).
  assert (HS : 0 < S) by (apply Rsum_pos; [exact HC|intros; apply exp_pos]).
  assert (D1 : derivable_pt_lim (fun z => Rsum C (fun b => item t a b * f b z))
                 x (Rsum C (fun b => item t a b * l b))).
  { apply (derivable_pt_lim_Rsum C (fun b z => item t a b * f b z)
             (fun b => item t a b * l b)).
    intros b Hb. apply (derivable_pt_lim_scal (f b) (item t a b)).
    now apply Hf. }
  assert (D2 : derivable_pt_lim (fun z => Rsum C (fun b => exp (f b z)))
                 x (Rsum C (fun b => exp (f b x) * l b))).
  { apply (derivable_pt_lim_Rsum C (fun b z => exp (f b z))
             (fun b => exp (f b x) * l b)).
    intros b Hb. apply (derivable_pt_lim_comp (f b) exp).
    - now apply Hf.
    - apply derivable_pt_lim_exp. }
  assert (D3 : derivable_pt_lim
                 (comp ln (fun z => Rsum C (fun b => exp (f b z))))
                 x (/ S * Rsum C (fun b => exp (f b x) * l b))).
  { apply derivable_pt_lim_comp; [exact D2|].
    apply derivable_pt_lim_ln. exact HS. }
  apply (derivable_pt_lim_ext
           (mult_real_fct (/ INR C)
              (plus_fct (opp_fct (fun z => Rsum C (fun b => item t a b * f b z)))
                 (comp ln (fun z => Rsum C (fun b => exp (f b z))))))).
  { intros z. unfold mult_real_fct, plus_fct, opp_fct, comp, row_loss_of_logits.
    rewrite Hone. field. exact HCn. }
  replace (Rsum C (fun b => (spec_softmax C (fun b' => f b' x) b - item t a b)
                            / INR C * l b))
    with (/ INR C * (- Rsum C (fun b => item t a b * l b)
                     + / S * Rsum C (fun b => exp (f b x) * l b))).
  - apply derivable_pt_lim_scal. apply derivable_pt_lim_plus; [|exact D3].
    apply derivable_pt_lim_opp. exact D1.
  - rewrite (Rsum_ext C (fun b => (spec_softmax C (fun b' => f b' x) b
                                   - item t a b) / INR C * l b)
               (fun b => exp (f b x) * l b * (/ S * / INR C)
                         - item t a b * l b * / INR C)).
    + rewrite Rsum_minus, !Rsum_scal. field. split; (exact HCn || lra).
    + intros b Hb. unfold spec_softmax. fold S. field. split; (exact HCn || lra).
Qed.

(** The mean loss when the pre-activations of the output layer depend on
    the parameter through one hidden unit, whose input is affine in it. *)
Lemma mean_row_loss_hidden_derivative (t : ndarray R) (N C : nat)
    (rows : R -> nat -> nat -> R) (U : nat -> nat -> R) (u v : nat -> R)
    (w : nat -> R) (x : R) :
  (forall z a b, (a < N)%nat -> (b < C)%nat ->
     rows z a b = U a b + spec_sigmoid (u a + v a * z) * w b) ->
  (0 < C)%nat ->
  (forall a, (a < N)%nat -> Rsum C (item t a) = 1) ->
  derivable_pt_lim
    (fun z => Rsum N (fun a => row_loss_of_logits t C a (rows z a)) / INR N)
    x
    (Rsum N (fun a =>
       v a * (spec_sigmoid (u a + v a * x)
              * (1 - spec_sigmoid (u a + v a * x))
              * Rsum C (fun b => (spec_softmax C (rows x a) b - item t a b)
                                 / INR C * w b)))
     / INR N).
Proof.
  intros Hrows HC Hone.
  apply (derivable_pt_lim_ext
           (mult_real_fct (/ INR N)
              (fun z => Rsum N (fun a => row_loss_of_logits t C a (rows z a)))));
    [intros z; unfold mult_real_fct, Rdiv; ring|].
  match goal with
  | |- derivable_pt_lim _ _ (?A / ?B) =>
      replace (A / B) with (/ B * A) by (unfold Rdiv; ring)
  end.
  apply derivable_pt_lim_scal.
  apply (derivable_pt_lim_Rsum N
           (fun a z => row_loss_of_logits t C a (rows z a))).
  intros a Ha.
  set (h := spec_sigmoid (u a + v a * x)).
  apply (derivable_pt_lim_ext
           (fun z => row_loss_of_logits t C a
                       (fun b => U a b + spec_sigmoid (u a + v a * z) * w b))).
  { intros z. apply row_loss_of_logits_ext. intros b Hb.
    symmetry. now apply Hrows. }
  replace (v a * (h * (1 - h)
                  * Rsum C (fun b => (spec_softmax C (rows x a) b - item t a b)
                                     / INR C * w b)))
    with (Rsum C (fun b =>
            (spec_softmax C
               (fun b' => U a b' + spec_sigmoid (u a + v a * x) * w b') b
             - item t a b) / INR C * (w b * (h * (1 - h) * v a)))).
  - apply (row_loss_of_logits_derivative t C a
             (fun b z => U a b + spec_sigmoid (u a + v a * z) * w b)
             (fun b => w b * (h * (1 - h) * v a)));
      [exact HC|now apply Hone|].
    intros b Hb.
    apply (derivable_pt_lim_ext
             (plus_fct (fct_cte (U a b))
                (mult_real_fct (w b)
                   (comp spec_sigmoid
                      (plus_fct (fct_cte (u a)) (mult_real_fct (v a) id)))))).
    { intros z. unfold plus_fct, fct_cte, mult_real_fct, comp, id. ring. }
    replace (w b * (h * (1 - h) * v a))
      with (0 + w b * (h * (1 - h) * (0 + v a * 1))) by ring.
    apply derivable_pt_lim_plus; [apply derivable_pt_lim_const|].
    apply derivable_pt_lim_scal.
    apply (derivable_pt_lim_comp
             (plus_fct (fct_cte (u a)) (mult_real_fct (v a) id)) spec_sigmoid).
    + apply derivable_pt_lim_plus; [apply derivable_pt_lim_const|].
      apply derivable_pt_lim_scal. apply derivable_pt_lim_id.
    + apply derivable_pt_lim_spec_sigmoid.
  - rewrite (Rsum_ext C _
               (fun b => (spec_softmax C (rows x a) b - item t a b)
                         / INR C * w b * (h * (1 - h) * v a))).
    + rewrite Rsum_scal. ring.
    + intros b Hb.
      rewrite (spec_softmax_ext C _ (rows x a) b Hb).
      * ring.
      * intros b' Hb'. symmetry. now apply Hrows.
Qed.

(** The derivative of the network loss in one weight between the input
    and the hidden layer. *)
Lemma network_loss_input_weight_derivative
    (input W1 b1 W2 b2 label : ndarray R) (d k : nat) :
  shape1 input = shape0 W1 ->
  shape b1 = (1%nat, shape1 W1) ->
  shape1 W1 = shape0 W2 ->
  shape b2 = (1%nat, shape1 W2) ->
  shape label = (shape0 input, shape1 W2) ->
  (d < shape0 W1)%nat -> (k < shape1 W1)%nat -> (0 < shape1 W2)%nat ->
  (forall a, (a < shape0 input)%nat -> Rsum (shape1 W2) (item label a) = 1) ->
  derivable_pt_lim
    (fun z => network_loss input (set_item W1 d k z) b1 W2 b2 label)
    (item W1 d k)
    (Rsum (shape0 input)
       (fun a =>
          item input a d
          * (spec_hidden input W1 b1 a k * (1 - spec_hidden input W1 b1 a k)
             * Rsum (shape1 W2)
                 (fun b => (spec_predictions input W1 b1 W2 b2 a b
                            - item label a b) / INR (shape1 W2)
                           * item W2 k b)))
     / INR (shape0 input)).
Proof.
  intros HxW Hb1 HWW Hb2 Hl Hd Hk HC Hone.
  set (N := shape0 input) in *. set (C := shape1 W2) in *.
  set (hid := spec_hidden input W1 b1).
  set (rows := fun z a => spec_output_pre input (set_item W1 d k z) b1 W2 b2 a).
  set (u := fun a => Rsum (shape1 input)
                       (fun d' => if Nat.eqb d' d then 0
                                  else item input a d' * item W1 d' k)
                     + item b1 0 k).
  set (U := fun a b => Rsum (shape0 W2)
                         (fun k' => if Nat.eqb k' k then 0
                                    else hid a k' * item W2 k' b)
                       + item b2 0 b).
  assert (Hd' : (d < shape1 input)%nat) by (rewrite HxW; exact Hd).
  assert (Hk' : (k < shape0 W2)%nat) by (rewrite <- HWW; exact Hk).
  assert (Hhid : forall z a k', (k' < shape0 W2)%nat ->
            spec_hidden input (set_item W1 d k z) b1 a k'
            = if Nat.eqb k' k then spec_sigmoid (u a + item input a d * z)
              else hid a k').
  { intros z a k' Hk''. unfold hid, spec_hidden, spec_hidden_pre, u.
    destruct (Nat.eqb_spec k' k) as [->|Hne].
    - f_equal.
      rewrite (Rsum_ext (shape1 input) _
                 (fun d' => if Nat.eqb d' d then item input a d * z
                            else item input a d' * item W1 d' k)).
      + rewrite Rsum_split by exact Hd'. ring.
      + intros d' Hd''. rewrite item_set_item by (rewrite <- ?HxW; assumption).
        rewrite Nat.eqb_refl, andb_true_r.
        now destruct (Nat.eqb_spec d' d) as [->|].
    - do 2 f_equal. apply Rsum_ext. intros d' Hd''.
      rewrite item_set_item by (rewrite <- ?HxW, ?HWW; assumption).
      apply Nat.eqb_neq in Hne. now rewrite Hne, andb_false_r. }
  assert (Hrows : forall z a b, (a < N)%nat -> (b < C)%nat ->
            rows z a b
            = U a b + spec_sigmoid (u a + item input a d * z) * item W2 k b).
  { intros z a b Ha Hb. unfold rows, spec_output_pre, U.
    rewrite (Rsum_ext (shape0 W2) _
               (fun k' => if Nat.eqb k' k
                          then spec_sigmoid (u a + item input a d * z)
                               * item W2 k b
                          else hid a k' * item W2 k' b)).
    - rewrite Rsum_split by exact Hk'. ring.
    - intros k' Hk''. rewrite Hhid by exact Hk''.
      now destruct (Nat.eqb_spec k' k) as [->|]. }
  assert (Hu : forall a, u a + item input a d * item W1 d k
                         = spec_hidden_pre input W1 b1 a k).
  { intros a. unfold u, spec_hidden_pre.
    rewrite (Rsum_at (shape1 input) d
               (fun d' => item input a d' * item W1 d' k)) by exact Hd'.
    ring. }
  assert (Hsame : forall a b, (a < N)%nat -> (b < C)%nat ->
            rows (item W1 d k) a b = spec_output_pre input W1 b1 W2 b2 a b).
  { intros a b Ha Hb. rewrite Hrows by assumption. rewrite Hu.
    change (spec_sigmoid (spec_hidden_pre input W1 b1 a k)) with (hid a k).
    unfold U, spec_output_pre. fold hid.
    rewrite (Rsum_at (shape0 W2) k (fun k' => hid a k' * item W2 k' b))
      by exact Hk'.
    ring. }
  apply (derivable_pt_lim_ext
           (fun z => Rsum N (fun a => row_loss_of_logits label C a (rows z a))
                     / INR N)).
  { intros z. symmetry.
    apply (network_loss_value input (set_item W1 d k z) b1 W2 b2 label);
      assumption. }
  rewrite (Rsum_ext N _
             (fun a =>
                item input a d
                * (spec_sigmoid (u a + item input a d * item W1 d k)
                   * (1 - spec_sigmoid (u a + item input a d * item W1 d k))
                   * Rsum C (fun b => (spec_softmax C (rows (item W1 d k) a) b
                                       - item label a b) / INR C
                                      * item W2 k b)))).
  - apply (mean_row_loss_hidden_derivative label N C rows U u
             (fun a => item input a d) (item W2 k)); assumption.
  - intros a Ha. rewrite Hu.
    change (spec_sigmoid (spec_hidden_pre input W1 b1 a k)) with (hid a k).
    do 2 f_equal.
    apply Rsum_ext. intros b Hb. do 3 f_equal.
    unfold spec_predictions. fold C. apply spec_softmax_ext; [exact Hb|].
    intros b' Hb'. symmetry. now apply Hsame.
Qed.

(** The derivative of the network loss in one bias of the hidden
    layer. *)
Lemma network_loss_input_bias_derivative
    (input W1 b1 W2 b2 label : ndarray R) (k : nat) :
  shape1 input = shape0 W1 ->
  shape b1 = (1%nat, shape1 W1) ->
  shape1 W1 = shape0 W2 ->
  shape b2 = (1%nat, shape1 W2) ->
  shape label = (shape0 input, shape1 W2) ->
  (k < shape1 W1)%nat -> (0 < shape1 W2)%nat ->
  (forall a, (a < shape0 input)%nat -> Rsum (shape1 W2) (item label a) = 1) ->
  derivable_pt_lim
    (fun z => network_loss input W1 (set_item b1 0 k z) W2 b2 label)
    (item b1 0 k)
    (Rsum (shape0 input)
       (fun a =>
          spec_hidden input W1 b1 a k * (1 - spec_hidden input W1 b1 a k)
          * Rsum (shape1 W2)
              (fun b => (spec_predictions input W1 b1 W2 b2 a b
                         - item label a b) / INR (shape1 W2)
                        * item W2 k b))
     / INR (shape0 input)).
Proof.
  intros HxW Hb1 HWW Hb2 Hl Hk HC Hone.
  set (N := shape0 input) in *. set (C := shape1 W2) in *.
  set (hid := spec_hidden input W1 b1).
  set (rows := fun z a => spec_output_pre input W1 (set_item b1 0 k z) W2 b2 a).
  set (u := fun a => Rsum (shape1 input)
                       (fun d' => item input a d' * item W1 d' k)).
  set (U := fun a b => Rsum (shape0 W2)
                         (fun k' => if Nat.eqb k' k then 0
                                    else hid a k' * item W2 k' b)
                       + item b2 0 b).
  assert (Hb1' := Hb1). unfold shape in Hb1'. injection Hb1' as Hb10 Hb11.
  assert (Hk' : (k < shape0 W2)%nat) by (rewrite <- HWW; exact Hk).
  assert (Hhid : forall z a k', (k' < shape0 W2)%nat ->
            spec_hidden input W1 (set_item b1 0 k z) a k'
            = if Nat.eqb k' k then spec_sigmoid (u a + 1 * z)
              else hid a k').
  { intros z a k' Hk''. unfold hid, spec_hidden, spec_hidden_pre, u.
    rewrite item_set_item by (rewrite ?Hb10, ?Hb11, ?HWW; (lia || assumption)).
    cbn [Nat.eqb andb].
    destruct (Nat.eqb_spec k' k) as [->|Hne]; [f_equal; ring|reflexivity]. }
  assert (Hrows : forall z a b, (a < N)%nat -> (b < C)%nat ->
            rows z a b = U a b + spec_sigmoid (u a + 1 * z) * item W2 k b).
  { intros z a b Ha Hb. unfold rows, spec_output_pre, U.
    rewrite (Rsum_ext (shape0 W2) _
               (fun k' => if Nat.eqb k' k
                          then spec_sigmoid (u a + 1 * z) * item W2 k b
                          else hid a k' * item W2 k' b)).
    - rewrite Rsum_split by exact Hk'. ring.
    - intros k' Hk''. rewrite Hhid by exact Hk''.
      now destruct (Nat.eqb_spec k' k) as [->|]. }
  assert (Hu : forall a, u a + 1 * item b1 0 k
                         = spec_hidden_pre input W1 b1 a k).
  { intros a. unfold u, spec_hidden_pre. ring. }
  assert (Hsame : forall a b, (a < N)%nat -> (b < C)%nat ->
            rows (item b1 0 k) a b = spec_output_pre input W1 b1 W2 b2 a b).
  { intros a b Ha Hb. rewrite Hrows by assumption. rewrite Hu.
    change (spec_sigmoid (spec_hidden_pre input W1 b1 a k)) with (hid a k).
    unfold U, spec_output_pre. fold hid.
    rewrite (Rsum_at (shape0 W2) k (fun k' => hid a k' * item W2 k' b))
      by exact Hk'.
    ring. }
  apply (derivable_pt_lim_ext
           (fun z => Rsum N (fun a => row_loss_of_logits label C a (rows z a))
                     / INR N)).
  { intros z. symmetry.
    apply (network_loss_value input W1 (set_item b1 0 k z) W2 b2 label);
      assumption. }
  rewrite (Rsum_ext N _
             (fun a =>
                1 * (spec_sigmoid (u a + 1 * item b1 0 k)
                     * (1 - spec_sigmoid (u a + 1 * item b1 0 k))
                     * Rsum C (fun b => (spec_softmax C (rows (item b1 0 k) a) b
                                         - item label a b) / INR C
                                        * item W2 k b)))).
  - apply (mean_row_loss_hidden_derivative label N C rows U u
             (fun _ => 1) (item W2 k)); assumption.
  - intros a Ha. rewrite Hu.
    change (spec_sigmoid (spec_hidden_pre input W1 b1 a k)) with (hid a k).
    rewrite Rmult_1_l. f_equal.
    apply Rsum_ext. intros b Hb. do 3 f_equal.
    unfold spec_predictions. fold C. apply spec_softmax_ext; [exact Hb|].
    intros b' Hb'. symmetry. now apply Hsame.
Qed.

(** X25: [backprop] moves each weight between the input and the hidden
    layer against the derivative of the network loss in that weight, by
    LEARNING_RATE * batch_size times that derivative: [dLdWinput] is the
    gradient of the summed, not the mean, loss of the batch. *)
Theorem backprop_input_weight_gradient (LEARNING_RATE : R) (s : store R)
    (ly ly_ lh lW2 lW1 lb2 lb1 lx : loc)
    (y y_ h W2 W1 b2 b1 x : ndarray R) (N C Hd D : nat) :
  s !! ly = Some y -> s !! ly_ = Some y_ -> s !! lh = Some h ->
  s !! lW2 = Some W2 -> s !! lW1 = Some W1 ->
  s !! lb2 = Some b2 -> s !! lb1 = Some b1 -> s !! lx = Some x ->
  NoDup [lW2; lb2; lW1; lb1] ->
  shape y = (N, C) -> shape W2 = (Hd, C) -> shape W1 = (D, Hd) ->
  shape b2 = (1%nat, C) -> shape b1 = (1%nat, Hd) -> shape x = (N, D) ->
  forward_pass x W1 b1 W2 b2 = Some (y_, h) ->
  (forall a, (a < N)%nat -> Rsum C (item y a) = 1) ->
  (0 < N)%nat ->
  exists s' W1',
    backprop LEARNING_RATE ly ly_ lh lW2 lW1 lb2 lb1 lx s =
    Some ((lW2, lb2, lW1, lb1), s') /\
    s' !! lW1 = Some W1' /\
    forall d k, (d < D)%nat -> (k < Hd)%nat ->
      exists g,
        derivable_pt_lim
          (fun z => network_loss x (set_item W1 d k z) b1 W2 b2 y)
          (item W1 d k) g /\
        item W1' d k = item W1 d k - LEARNING_RATE * (INR N * g).
Proof.
  intros Hy Hy_ Hh HW2 HW1 Hb2 Hb1 Hx Hnd Sy SW2 SW1 Sb2 Sb1 Sx Hf Hone HN.
  assert (HC : (0 < C)%nat).
  { destruct C; [|lia]. specialize (Hone 0%nat HN). simpl in Hone. lra. }
  assert (Sy' := Sy). assert (SW2' := SW2). assert (SW1' := SW1).
  assert (Sb2' := Sb2). assert (Sb1' := Sb1). assert (Sx' := Sx).
  unfold shape in Sy', SW2', SW1', Sb2', Sb1', Sx'.
  injection Sy' as Sy0 Sy1. injection SW2' as SW20 SW21.
  injection SW1' as SW10 SW11. injection Sb2' as Sb20 Sb21.
  injection Sb1' as Sb10 Sb11. injection Sx' as Sx0 Sx1.
  rewrite forward_pass_value in Hf
    by (rewrite ?Sb1, ?Sb2; congruence).
  injection Hf as Ey_ Eh.
  eexists _, _. split.
  { apply (backprop_value LEARNING_RATE s ly ly_ lh lW2 lW1 lb2 lb1 lx
             y y_ h W2 W1 b2 b1 x N C Hd D); try assumption;
      rewrite <- ?Ey_, <- ?Eh; unfold shape; cbn [shape0 shape1 mk_array];
      congruence. }
  inversion_clear Hnd as [|? ? N1 Hnd1]. inversion_clear Hnd1 as [|? ? N2 Hnd2].
  inversion_clear Hnd2 as [|? ? N3 Hnd3].
  repeat rewrite not_elem_of_cons in N3. destruct N3 as (? & _).
  split.
  { rewrite !lookup_insert_ne by congruence. apply lookup_insert_eq. }
  intros d k Hd' Hk. eexists. split.
  { apply network_loss_input_weight_derivative;
      rewrite ?Sb1, ?Sb2, ?Sy, ?SW10, ?SW11, ?SW21;
      try congruence; try assumption.
    intros a Ha. apply Hone. lia. }
  unfold spec_gd. rewrite item_mk_array by lia. f_equal. f_equal.
  unfold spec_grad_W1. rewrite Sy0, Sx0, SW21.
  assert (HNn : INR N <> 0) by (apply not_0_INR; lia).
  rewrite (Rsum_ext N _
             (fun a =>
                item x a d
                * (spec_hidden x W1 b1 a k * (1 - spec_hidden x W1 b1 a k)
                   * Rsum C (fun b => (spec_predictions x W1 b1 W2 b2 a b
                                       - item y a b) / INR C
                                      * item W2 k b)))).
  - field. exact HNn.
  - intros a Ha. unfold spec_delta_hidden, spec_d_output.
    rewrite Sy1, <- Eh, item_mk_array by lia. do 2 f_equal.
    apply Rsum_ext. intros b Hb.
    rewrite <- Ey_, item_mk_array by lia. reflexivity.
Qed.

(** X26: [backprop] moves each bias of the hidden layer against the
    derivative of the network loss in that bias, by LEARNING_RATE *
    batch_size times that derivative. *)
Theorem backprop_input_bias_gradient (LEARNING_RATE : R) (s : store R)
    (ly ly_ lh lW2 lW1 lb2 lb1 lx : loc)
    (y y_ h W2 W1 b2 b1 x : ndarray R) (N C Hd D : nat) :
  s !! ly = Some y -> s !! ly_ = Some y_ -> s !! lh = Some h ->
  s !! lW2 = Some W2 -> s !! lW1 = Some W1 ->
  s !! lb2 = Some b2 -> s !! lb1 = Some b1 -> s !! lx = Some x ->
  NoDup [lW2; lb2; lW1; lb1] ->
  shape y = (N, C) -> shape W2 = (Hd, C) -> shape W1 = (D, Hd) ->
  shape b2 = (1%nat, C) -> shape b1 = (1%nat, Hd) -> shape x = (N, D) ->
  forward_pass x W1 b1 W2 b2 = Some (y_, h) ->
  (forall a, (a < N)%nat -> Rsum C (item y a) = 1) ->
  (0 < N)%nat ->
  exists s' b1',
    backprop LEARNING_RATE ly ly_ lh lW2 lW1 lb2 lb1 lx s =
    Some ((lW2, lb2, lW1, lb1), s') /\
    s' !! lb1 = Some b1' /\
    forall k, (k < Hd)%nat ->
      exists g,
        derivable_pt_lim
          (fun z => network_loss x W1 (set_item b1 0 k z) W2 b2 y)
          (item b1 0 k) g /\
        item b1' 0 k = item b1 0 k - LEARNING_RATE * (INR N * g).
Proof.
  intros Hy Hy_ Hh HW2 HW1 Hb2 Hb1 Hx Hnd Sy SW2 SW1 Sb2 Sb1 Sx Hf Hone HN.
  assert (HC : (0 < C)%nat).
  { destruct C; [|lia]. specialize (Hone 0%nat HN). simpl in Hone. lra. }
  assert (Sy' := Sy). assert (SW2' := SW2). assert (SW1' := SW1).
  assert (Sb2' := Sb2). assert (Sb1' := Sb1). assert (Sx' := Sx).
  unfold shape in Sy', SW2', SW1', Sb2', Sb1', Sx'.
  injection Sy' as Sy0 Sy1. injection SW2' as SW20 SW21.
  injection SW1' as SW10 SW11. injection Sb2' as Sb20 Sb21.
  injection Sb1' as Sb10 Sb11. injection Sx' as Sx0 Sx1.
  rewrite forward_pass_value in Hf
    by (rewrite ?Sb1, ?Sb2; congruence).
  injection Hf as Ey_ Eh.
  eexists _, _. split.
  { apply (backprop_value LEARNING_RATE s ly ly_ lh lW2 lW1 lb2 lb1 lx
             y y_ h W2 W1 b2 b1 x N C Hd D); try assumption;
      rewrite <- ?Ey_, <- ?Eh; unfold shape; cbn [shape0 shape1 mk_array];
      congruence. }
  split; [apply lookup_insert_eq|].
  intros k Hk. eexists. split.
  { apply network_loss_input_bias_derivative;
      rewrite ?Sb1, ?Sb2, ?Sy, ?SW10, ?SW11, ?SW21;
      try congruence; try assumption.
    intros a Ha. apply Hone. lia. }
  unfold spec_gd. rewrite item_mk_array by lia. f_equal. f_equal.
  unfold spec_grad_b1. rewrite Sy0, Sx0, SW21.
  assert (HNn : INR N <> 0) by (apply not_0_INR; lia).
  rewrite (Rsum_ext N _
             (fun a =>
                spec_hidden x W1 b1 a k * (1 - spec_hidden x W1 b1 a k)
                * Rsum C (fun b => (spec_predictions x W1 b1 W2 b2 a b
                                    - item y a b) / INR C
                                   * item W2 k b))).
  - field. exact HNn.
  - intros a Ha. unfold spec_delta_hidden, spec_d_output.
    rewrite Sy1, <- Eh, item_mk_array by lia. f_equal.
    apply Rsum_ext. intros b Hb.
    rewrite <- Ey_, item_mk_array by lia. reflexivity.
Qed.

Lemma backprop_input_weight_gradient_witness :
  exists s' W1',
    backprop 0.1 1%positive 2%positive 3%positive 4%positive 5%positive
      6%positive 7%positive 8%positive ex_forward_store
    = Some ((4%positive, 6%positive, 5%positive, 7%positive), s') /\
    s' !! 5%positive = Some W1' /\
    forall d k, (d < 1)%nat -> (k < 1)%nat ->
      exists g,
        derivable_pt_lim
          (fun z => network_loss ex_x (set_item ex_W1 d k z) ex_b1 ex_W2
                      ex_b2 ex_label)
          (item ex_W1 d k) g /\
        item W1' d k = item ex_W1 d k - 0.1 * (INR 1 * g).
Proof.
  apply (backprop_input_weight_gradient 0.1 ex_forward_store
           1%positive 2%positive 3%positive 4%positive 5%positive
           6%positive 7%positive 8%positive
           ex_label
           (mk_array 1 2 (spec_predictions ex_x ex_W1 ex_b1 ex_W2 ex_b2))
           (mk_array 1 1 (spec_hidden ex_x ex_W1 ex_b1))
           ex_W2 ex_W1 ex_b2 ex_b1 ex_x
           1%nat 2%nat 1%nat 1%nat); try reflexivity.
  - repeat constructor; intros A; repeat (apply elem_of_cons in A as [A|A]);
      try discriminate; now apply elem_of_nil in A.
  - intros a Ha. assert (a = 0%nat) as -> by lia.
    unfold Rsum, item. simpl. lra.
  - lia.
Defined.

Lemma backprop_input_bias_gradient_witness :
  exists s' b1',
    backprop 0.1 1%positive 2%positive 3%positive 4%positive 5%positive
      6%positive 7%positive 8%positive ex_forward_store
    = Some ((4%positive, 6%positive, 5%positive, 7%positive), s') /\
    s' !! 7%positive = Some b1' /\
    forall k, (k < 1)%nat ->
      exists g,
        derivable_pt_lim
          (fun z => network_loss ex_x ex_W1 (set_item ex_b1 0 k z) ex_W2
                      ex_b2 ex_label)
          (item ex_b1 0 k) g /\
        item b1' 0 k = item ex_b1 0 k - 0.1 * (INR 1 * g).
Proof.
  apply (backprop_input_bias_gradient 0.1 ex_forward_store
           1%positive 2%positive 3%positive 4%positive 5%positive
           6%positive 7%positive 8%positive
           ex_label
           (mk_array 1 2 (spec_predictions ex_x ex_W1 ex_b1 ex_W2 ex_b2))
           (mk_array 1 1 (spec_hidden ex_x ex_W1 ex_b1))
           ex_W2 ex_W1 ex_b2 ex_b1 ex_x
           1%nat 2%nat 1%nat 1%nat); try reflexivity.
  - repeat constructor; intros A; repeat (apply elem_of_cons in A as [A|A]);
      try discriminate; now apply elem_of_nil in A.
  - intros a Ha. assert (a = 0%nat) as -> by lia.
    unfold Rsum, item. simpl. lra.
  - lia.
Defined.
